(** * Bill-Extractor: the extraction pipeline of [bill_extractor.py]

    A shallow embedding of the text-processing core of the program
    (field extraction by regular expressions, the render/re-parse
    validator, the output renderings, PDF preprocessing with its OCR
    fallback and the worker's error boundary), with the properties of
    the specification stated and proved over it.

    Text.  A Python [str] is modelled as a list of characters whose
    code points lie in U+0000..U+00FF (Rocq's [ascii], read as Latin-1).
    On that range the character predicates below are the ones of
    CPython ([str.isspace], [str.lower], the [re] categories [\s], [\d]
    and [\w] for [str] patterns, and [re.IGNORECASE] on the ASCII
    literals the program's patterns are made of).

    Effects.  Files, the PDF library and the OCR service are a record
    of functions that a run consults; a computation is the list of
    events it emits together with its outcome, a value or an
    exception.  The calls to [logger] change nothing that the
    properties speak of and are left out; a handler that logs and
    raises again is the computation it wraps. *)

From Stdlib Require Import List Ascii String Bool Arith Lia.
Import ListNotations.

Local Open Scope char_scope.
Local Open Scope list_scope.
Local Open Scope nat_scope.

(* ================================================================= *)
(** ** Characters and Python string methods *)

Module PyStr.

Definition str := list ascii.

(** A string literal of the source. *)
Definition L (s : string) : str := list_ascii_of_string s.

(** The newline character ["\n"]. *)
Definition nl : ascii := "010".

Definition code (c : ascii) : nat := nat_of_ascii c.

Definition between (lo hi : nat) (c : ascii) : bool :=
  (lo <=? code c) && (code c <=? hi).

(** [str.isspace] on one character: TAB..CR, FS..US, space, NEL, NBSP. *)
Definition isspace (c : ascii) : bool :=
  between 9 13 c || between 28 32 c || (code c =? 133) || (code c =? 160).

(** Characters that have a lowercase form in the range: A-Z and the
    Latin-1 capitals (without the multiplication sign). *)
Definition has_lower (c : ascii) : bool :=
  between 65 90 c || between 192 214 c || between 216 222 c.

(** Characters whose uppercase form lies in the range: a-z and the
    Latin-1 small letters (without the division sign); the sharp s,
    the micro sign and y-diaeresis capitalise outside U+00FF and are
    left as they are, they occur in no key of the program. *)
Definition has_upper (c : ascii) : bool :=
  between 97 122 c || between 224 246 c || between 248 254 c.

Definition lower_char (c : ascii) : ascii :=
  if has_lower c then ascii_of_nat (code c + 32) else c.

Definition upper_char (c : ascii) : ascii :=
  if has_upper c then ascii_of_nat (code c - 32) else c.

(** Cased characters (the ones [str.title] treats as part of a word). *)
Definition is_cased (c : ascii) : bool :=
  between 65 90 c || between 97 122 c || (code c =? 170) || (code c =? 181)
  || (code c =? 186) || between 192 214 c || between 216 246 c
  || between 248 255 c.

(** [s.lower()] *)
Definition lower (s : str) : str := map lower_char s.

(** [s.title()]: a cased character is capitalised when the character
    before it is not cased, and lowered otherwise. *)
Fixpoint title_from (prev_cased : bool) (s : str) : str :=
  match s with
  | [] => []
  | c :: s' =>
      (if prev_cased then lower_char c else upper_char c)
        :: title_from (is_cased c) s'
  end.

Definition title (s : str) : str := title_from false s.

(** [s.replace(a, b)] for one-character [a] and [b]. *)
Definition replace (a b : ascii) (s : str) : str :=
  map (fun c => if Ascii.eqb c a then b else c) s.

(** [s.lstrip()], [s.rstrip()] and [s.strip()] *)
Fixpoint lstrip (s : str) : str :=
  match s with
  | c :: s' => if isspace c then lstrip s' else s
  | [] => []
  end.

Definition rstrip (s : str) : str := rev (lstrip (rev s)).

Definition strip (s : str) : str := rstrip (lstrip s).

(** [s.split(sep)] for a one-character separator: always at least one
    piece, an empty piece between two adjacent separators. *)
Fixpoint split (sep : ascii) (s : str) : list str :=
  match s with
  | [] => [[]]
  | c :: s' =>
      if Ascii.eqb c sep then [] :: split sep s'
      else match split sep s' with
           | piece :: rest => (c :: piece) :: rest
           | [] => [[c]]
           end
  end.

(** [sep.join(pieces)] *)
Fixpoint join (sep : str) (pieces : list str) : str :=
  match pieces with
  | [] => []
  | [p] => p
  | p :: rest => p ++ sep ++ join sep rest
  end.

(** [sep in s] together with [s.split(sep, 1)]: the text before the
    first separator and the text after it, or [None] when [s] has no
    separator. *)
Fixpoint split_once (sep : ascii) (s : str) : option (str * str) :=
  match s with
  | [] => None
  | c :: s' =>
      if Ascii.eqb c sep then Some ([], s')
      else match split_once sep s' with
           | Some (a, b) => Some (c :: a, b)
           | None => None
           end
  end.

(** [s.endswith(suffix)] *)
Fixpoint startswith (prefix s : str) : bool :=
  match prefix, s with
  | [], _ => true
  | p :: prefix', c :: s' => Ascii.eqb p c && startswith prefix' s'
  | _ :: _, [] => false
  end.

Definition endswith (suffix s : str) : bool :=
  startswith (rev suffix) (rev s).

(** [a == b] *)
Fixpoint str_eqb (a b : str) : bool :=
  match a, b with
  | [], [] => true
  | x :: a', y :: b' => Ascii.eqb x y && str_eqb a' b'
  | _, _ => false
  end.

End PyStr.
Import PyStr.

(* ================================================================= *)
(** ** Python dictionaries with string keys and values

    A [dict] keeps its keys in insertion order; assigning to a key that
    is present replaces the value in place, assigning to a new key
    appends it. *)

Module PyDict.

Definition dict := list (str * str).

Fixpoint set (d : dict) (k v : str) : dict :=
  match d with
  | [] => [(k, v)]
  | (k', v') :: d' =>
      if str_eqb k' k then (k', v) :: d' else (k', v') :: set d' k v
  end.

Fixpoint get (d : dict) (k : str) : option str :=
  match d with
  | [] => None
  | (k', v') :: d' => if str_eqb k' k then Some v' else get d' k
  end.

Definition keys (d : dict) : list str := map fst d.

End PyDict.

(* ================================================================= *)
(** ** The regular expressions of the pattern table

    The fragment of Python's [re] syntax that the ten patterns use:
    literals (matched under [re.IGNORECASE]), character sets and
    categories, concatenation, alternation, the greedy [?], greedy
    [*] and [+] over one-character sets, and numbered capture groups.
    Matching is by backtracking in [re]'s priority order: the left
    alternative first, the longest repetition first. *)

Module Re.

Inductive regex : Type :=
| Lit (c : ascii)
| CSet (p : ascii -> bool)
| Cat (r1 r2 : regex)
| Alt (r1 r2 : regex)
| Opt (r : regex)
| Star (p : ascii -> bool)
| Group (n : nat) (r : regex).

(** Captured groups, most recent first. *)
Definition caps := list (nat * str).

Fixpoint group (n : nat) (cs : caps) : option str :=
  match cs with
  | [] => None
  | (i, v) :: cs' => if i =? n then Some v else group n cs'
  end.

(** [len(match.groups())]: the number of groups of the pattern. *)
Fixpoint ngroups (r : regex) : nat :=
  match r with
  | Lit _ | CSet _ | Star _ => 0
  | Cat r1 r2 | Alt r1 r2 => ngroups r1 + ngroups r2
  | Opt r => ngroups r
  | Group _ r => S (ngroups r)
  end.

(** A literal under [re.IGNORECASE]. *)
Definition ci_eq (c x : ascii) : bool :=
  Ascii.eqb (lower_char c) (lower_char x).

Section Matcher.
Context {A : Type}.

(** Greedy [p*]: take as many characters as [p] allows, give them
    back one by one while the rest of the pattern fails. *)
Fixpoint star (p : ascii -> bool) (k : str -> option A) (s : str)
  : option A :=
  match s with
  | c :: s' =>
      if p c then
        match star p k s' with
        | Some x => Some x
        | None => k s
        end
      else k s
  | [] => k []
  end.
End Matcher.

(** The text a match has taken: what lies between the text [s] it
    started on and the rest [s'] it left. *)
Definition consumed (s s' : str) : str :=
  firstn (List.length s - List.length s') s.

(** [exec r s cs k]: match [r] at the start of [s] and hand the rest
    of the text to [k]; the first success in priority order. *)
Fixpoint exec (r : regex) (s : str) (cs : caps)
  (k : str -> caps -> option caps) : option caps :=
  match r with
  | Lit c =>
      match s with
      | x :: s' => if ci_eq c x then k s' cs else None
      | [] => None
      end
  | CSet p =>
      match s with
      | x :: s' => if p x then k s' cs else None
      | [] => None
      end
  | Cat r1 r2 => exec r1 s cs (fun s' cs' => exec r2 s' cs' k)
  | Alt r1 r2 =>
      match exec r1 s cs k with
      | Some x => Some x
      | None => exec r2 s cs k
      end
  | Opt r1 =>
      match exec r1 s cs k with
      | Some x => Some x
      | None => k s cs
      end
  | Star p => star p (fun s' => k s' cs) s
  | Group n r1 =>
      exec r1 s cs
        (fun s' cs' => k s' ((n, consumed s s') :: cs'))
  end.

(** A match that starts at the first character of [s]. *)
Definition match_here (r : regex) (s : str) : option caps :=
  exec r s [] (fun _ cs => Some cs).

(** [re.search(r, s, re.IGNORECASE)]: the match at the leftmost
    position that has one. *)
Fixpoint search (r : regex) (s : str) : option caps :=
  match match_here r s with
  | Some cs => Some cs
  | None =>
      match s with
      | [] => None
      | _ :: s' => search r s'
      end
  end.

(** *** Pattern syntax *)

(** A run of literal characters (the empty run takes the empty text). *)
Fixpoint lits (w : str) : regex :=
  match w with
  | [] => Opt (CSet (fun _ => false))
  | [c] => Lit c
  | c :: w' => Cat (Lit c) (lits w')
  end.

Definition word (w : string) : regex := lits (L w).

(** [r1|r2|...] *)
Fixpoint alts (r : regex) (rs : list regex) : regex :=
  match rs with
  | [] => r
  | r' :: rs' => Alt r (alts r' rs')
  end.

(** [p+] for a one-character set. *)
Definition Plus (p : ascii -> bool) : regex := Cat (CSet p) (Star p).

(** [\d]: the decimal digits. *)
Definition digit (c : ascii) : bool := between 48 57 c.

(** [\s] *)
Definition space (c : ascii) : bool := isspace c.

(** [\w]: letters, digits and numeric characters, and the underscore. *)
Definition wordchar (c : ascii) : bool :=
  between 48 57 c || between 65 90 c || between 97 122 c || (code c =? 95)
  || (code c =? 170) || between 178 179 c || (code c =? 181)
  || between 185 186 c || between 188 190 c || between 192 214 c
  || between 216 246 c || between 248 255 c.

(** [[abc]] *)
Definition one_of (cs : string) (c : ascii) : bool :=
  existsb (Ascii.eqb c) (L cs).

(** [[\dabc]] *)
Definition digit_or (cs : string) (c : ascii) : bool :=
  digit c || one_of cs c.

(** The group that closes a pattern, when the pattern ends with one. *)
Fixpoint last_group (r : regex) : option nat :=
  match r with
  | Cat _ r2 => last_group r2
  | Group n _ => Some n
  | _ => None
  end.

(** The body of the group that closes a pattern. *)
Fixpoint last_group_body (r : regex) : option regex :=
  match r with
  | Cat _ r2 => last_group_body r2
  | Group _ g => Some g
  | _ => None
  end.

(** The texts a pattern can take. *)
Fixpoint Lang (r : regex) (a : str) : Prop :=
  match r with
  | Lit c => exists x, a = [x] /\ ci_eq c x = true
  | CSet p => exists x, a = [x] /\ p x = true
  | Cat r1 r2 => exists a1 a2, a = a1 ++ a2 /\ Lang r1 a1 /\ Lang r2 a2
  | Alt r1 r2 => Lang r1 a \/ Lang r2 a
  | Opt r1 => a = [] \/ Lang r1 a
  | Star p => Forall (fun x => p x = true) a
  | Group _ r1 => Lang r1 a
  end.

(** Every character a pattern can take satisfies [q]. *)
Fixpoint chars_in (q : ascii -> bool) (r : regex) : Prop :=
  match r with
  | Lit c => forall x, ci_eq c x = true -> q x = true
  | CSet p | Star p => forall x, p x = true -> q x = true
  | Cat r1 r2 | Alt r1 r2 => chars_in q r1 /\ chars_in q r2
  | Opt r1 | Group _ r1 => chars_in q r1
  end.

(** Whether [r] can be matched at the start of [s] with a rest that
    [k] accepts: the matcher without its captures. *)
Fixpoint accepts_star (p : ascii -> bool) (k : str -> bool) (s : str) : bool :=
  match s with
  | c :: s' => if p c then accepts_star p k s' || k s else k s
  | [] => k []
  end.

Fixpoint accepts (r : regex) (s : str) (k : str -> bool) : bool :=
  match r with
  | Lit c =>
      match s with
      | x :: s' => ci_eq c x && k s'
      | [] => false
      end
  | CSet p =>
      match s with
      | x :: s' => p x && k s'
      | [] => false
      end
  | Cat r1 r2 => accepts r1 s (fun s' => accepts r2 s' k)
  | Alt r1 r2 => accepts r1 s k || accepts r2 s k
  | Opt r1 => accepts r1 s k || k s
  | Star p => accepts_star p k s
  | Group _ r1 => accepts r1 s k
  end.

(** [s] starts with [w], letter case apart. *)
Fixpoint ci_prefix (w s : str) : bool :=
  match w, s with
  | [], _ => true
  | c :: w', x :: s' => ci_eq c x && ci_prefix w' s'
  | _ :: _, [] => false
  end.

Definition is_some {A} (o : option A) : bool :=
  match o with
  | Some _ => true
  | None => false
  end.

Declare Scope re_scope.
Delimit Scope re_scope with re.
Infix "+>" := Cat (at level 41, right associativity) : re_scope.

End Re.

(* ================================================================= *)
(** ** Field extraction: [extract_information] *)

Module Bill.
Import PyDict Re.
Local Open Scope re_scope.

(** The sentinel of a field that no pattern matched. *)
Definition sentinel : str := L "Not found".

(** The ten field names, in the order the source declares them. *)
Definition field_names : list str :=
  [ L "invoice_number"; L "invoice_date"; L "amount_due"; L "due_date";
    L "account_number"; L "billing_period"; L "consumer_number";
    L "product"; L "quantity"; L "rate" ].

(** [extracted_info] as it is initialised (lines 103-114). *)
Definition initial_info : dict :=
  [ (L "invoice_number", sentinel);
    (L "invoice_date", sentinel);
    (L "amount_due", sentinel);
    (L "due_date", sentinel);
    (L "account_number", sentinel);
    (L "billing_period", sentinel);
    (L "consumer_number", sentinel);
    (L "product", sentinel);
    (L "quantity", sentinel);
    (L "rate", sentinel) ].

(** [[.:]\s*], the separator after a label. *)
Definition sep : regex := CSet (one_of ".:") +> Star space.

(** [\d{2}[./-]\d{2}[./-]\d{4}] *)
Definition date : regex :=
  CSet digit +> CSet digit +> CSet (one_of "./-") +>
  CSet digit +> CSet digit +> CSet (one_of "./-") +>
  CSet digit +> CSet digit +> CSet digit +> CSet digit.

(** [Invoice Number[.:]\s*(\w+)] *)
Definition invoice_number_re : regex :=
  word "Invoice Number" +> sep +> Group 1 (Plus wordchar).

(** [(Invoice Date|Date)[.:]\s*(\d{2}[./-]\d{2}[./-]\d{4})] *)
Definition invoice_date_re : regex :=
  Group 1 (Alt (word "Invoice Date") (word "Date")) +> sep +> Group 2 date.

(** [(Total Amount Due|TOTAL AMOUNT DUE|Amount|Total Invoice Amount|Amount Tendered|Due Amount|Current demand|To the total due date)[.:]?\s*(?:INR|Rs\.?)?\s*([\d,.]+)] *)
Definition amount_due_re : regex :=
  Group 1 (alts (word "Total Amount Due")
             [ word "TOTAL AMOUNT DUE"; word "Amount";
               word "Total Invoice Amount"; word "Amount Tendered";
               word "Due Amount"; word "Current demand";
               word "To the total due date" ]) +>
  Opt (CSet (one_of ".:")) +> Star space +>
  Opt (Alt (word "INR") (word "Rs" +> Opt (Lit "."))) +> Star space +>
  Group 2 (Plus (digit_or ",.")).

(** [Due Date[.:]\s*(\d{2}[./-]\d{2}[./-]\d{4})] *)
Definition due_date_re : regex :=
  word "Due Date" +> sep +> Group 1 date.

(** [(Account Number|BUSINESS PARTNER NO\.)[.:]\s*(\w+)] *)
Definition account_number_re : regex :=
  Group 1 (Alt (word "Account Number") (word "BUSINESS PARTNER NO.")) +>
  sep +> Group 2 (Plus wordchar).

(** [[\d/]+ to [\d/]+] *)
Definition period_re : regex :=
  Plus (digit_or "/") +> word " to " +> Plus (digit_or "/").

(** [Billing Period[.:]\s*([\d/]+ to [\d/]+)] *)
Definition billing_period_re : regex :=
  word "Billing Period" +> sep +> Group 1 period_re.

(** [Consumer Number[.:]\s*(\w+)] *)
Definition consumer_number_re : regex :=
  word "Consumer Number" +> sep +> Group 1 (Plus wordchar).

(** [Product\s+(PETROL|\w+)] *)
Definition product_re : regex :=
  word "Product" +> Plus space +> Group 1 (Alt (word "PETROL") (Plus wordchar)).

(** [(Qty|quantity)\s+([\d.]+)] *)
Definition quantity_re : regex :=
  Group 1 (Alt (word "Qty") (word "quantity")) +> Plus space +>
  Group 2 (Plus (digit_or ".")).

(** [(Rate-Rs|Price/SCM in INR)\s+([\d.]+)] *)
Definition rate_re : regex :=
  Group 1 (Alt (word "Rate-Rs") (word "Price/SCM in INR")) +> Plus space +>
  Group 2 (Plus (digit_or ".")).

(** The pattern table (lines 117-128), in its insertion order. *)
Definition patterns : list (str * regex) :=
  [ (L "invoice_number", invoice_number_re);
    (L "invoice_date", invoice_date_re);
    (L "amount_due", amount_due_re);
    (L "due_date", due_date_re);
    (L "account_number", account_number_re);
    (L "billing_period", billing_period_re);
    (L "consumer_number", consumer_number_re);
    (L "product", product_re);
    (L "quantity", quantity_re);
    (L "rate", rate_re) ].

(** What an f-string prints for a group: its text, or [None] for a
    group that took no part in the match. *)
Definition shown (g : option str) : str :=
  match g with
  | Some v => v
  | None => L "None"
  end.

(** [match.group(1) if len(match.groups()) == 1 else match.group(2)] *)
Definition selected (pat : regex) (cs : caps) : str :=
  shown (if ngroups pat =? 1 then group 1 cs else group 2 cs).

(** One turn of the loop of lines 130-134. *)
Definition extract_step (text : str) (info : dict) (kp : str * regex)
  : dict :=
  match search (snd kp) text with
  | Some cs => set info (fst kp) (selected (snd kp) cs)
  | None => info
  end.

(** [extracted_info] when the loop has ended: the ExtractionReport. *)
Definition extraction_report (text : str) : dict :=
  fold_left (extract_step text) patterns initial_info.

(** [f"{k.replace('_', ' ').title()}: {v}"] *)
Definition render_line (kv : str * str) : str :=
  title (replace "_" " " (fst kv)) ++ L ": " ++ snd kv.

(** ['\n'.join([... for k, v in info.items()])] *)
Definition render (info : dict) : str :=
  join [nl] (map render_line info).

(** [extract_information(text)] (line 137 returns the rendering). *)
Definition extract_information (text : str) : str :=
  render (extraction_report text).

(* ----------------------------------------------------------------- *)
(** ** Validation: [validate_extracted_info] *)

(** [key.strip().lower().replace(' ', '_')] *)
Definition normalize_key (key : str) : str :=
  replace " " "_" (lower (strip key)).

(** The body of the loop of lines 144-151 for one line. *)
Definition validate_line (validated_info : dict) (line : str) : dict :=
  match split_once ":" line with
  | Some (key, value) =>
      if str_eqb (strip value) sentinel then validated_info
      else set validated_info (normalize_key key) (strip value)
  | None => validated_info
  end.

Definition validate_extracted_info (extracted_text : str) : dict :=
  fold_left validate_line (split nl extracted_text) [].

(** The specification's direct reading of validation: drop the
    entries whose value is the sentinel, keep the others as they are. *)
Definition direct_filter (info : dict) : dict :=
  filter (fun kv => negb (str_eqb (snd kv) sentinel)) info.

(** A character that is not white space. *)
Definition solid (c : ascii) : bool := negb (isspace c).

(** A value that the rendering and the validator carry over as it is:
    no newline in it, no white space at either end. *)
Definition clean (v : str) : Prop := ~ In nl v /\ strip v = v.

(** A key survives the rendering and the re-parsing: its title-cased
    form has no colon and no newline, and normalises back to the key. *)
Definition key_roundtrips (k : str) : bool :=
  let shown_key := title (replace "_" " " k) in
  str_eqb (normalize_key shown_key) k
  && negb (existsb (Ascii.eqb ":") shown_key)
  && negb (existsb (Ascii.eqb nl) shown_key).

(** The report with every value stripped, as the validator reads it. *)
Definition stripped (info : dict) : dict :=
  map (fun kv => (fst kv, strip (snd kv))) info.

(** A report whose invoice number carries a leading blank. *)
Definition padded_report : dict :=
  set initial_info (L "invoice_number") (L " INV123").

(** A date written [dd/dd/dddd]. *)
Definition slash_date (dt : str) : bool :=
  match dt with
  | [d1; d2; s1; d3; d4; s2; d5; d6; d7; d8] =>
      digit d1 && digit d2 && Ascii.eqb s1 "/" && digit d3 && digit d4 &&
      Ascii.eqb s2 "/" && digit d5 && digit d6 && digit d7 && digit d8
  | _ => false
  end.

(** The text of the specification's example. *)
Definition example_text : str :=
  L "Invoice Number: INV123" ++ [nl] ++
  L "Total Amount Due: Rs. 1,234.50" ++ [nl] ++
  L "Due Date: 01/02/2024".

End Bill.


(* ================================================================= *)
(** ** Presentation: [BillExtractorGUI.display_results] *)

Module Output.
Import PyDict Bill.

Inductive output_format : Type := Text | JSON | CSV.

(** The double quote. *)
Definition dq : ascii := "034".

Definition hex_digit (n : nat) : ascii := nth n (L "0123456789abcdef") "0".

(** [json.dumps] with [ensure_ascii]: the quote and the backslash are
    escaped, the usual control characters get their short escapes, and
    every other character outside space..tilde is written [\u00xx]. *)
Definition json_escape (c : ascii) : str :=
  if Ascii.eqb c dq then ["\"; dq]
  else if Ascii.eqb c "\" then ["\"; "\"]
  else if Ascii.eqb c nl then ["\"; "n"]
  else if Ascii.eqb c "013" then ["\"; "r"]
  else if Ascii.eqb c "009" then ["\"; "t"]
  else if Ascii.eqb c "008" then ["\"; "b"]
  else if Ascii.eqb c "012" then ["\"; "f"]
  else if between 32 126 c then [c]
  else ["\"; "u"; "0"; "0"; hex_digit (code c / 16); hex_digit (code c mod 16)].

Definition json_string (s : str) : str :=
  dq :: flat_map json_escape s ++ [dq].

Definition json_member (kv : str * str) : str :=
  json_string (fst kv) ++ L ": " ++ json_string (snd kv).

(** [json.dumps(validated_info, indent=2)] for a dictionary of strings. *)
Definition json_dumps (d : dict) : str :=
  match d with
  | [] => L "{}"
  | _ :: _ =>
      L "{" ++ [nl] ++ L "  " ++
      join ("," :: nl :: L "  ") (map json_member d) ++ [nl] ++ L "}"
  end.

(** [f"{k},{v}"] *)
Definition csv_row (kv : str * str) : str := fst kv ++ "," :: snd kv.

(** The text that [display_results] puts in the result box. *)
Definition display_results (fmt : output_format) (validated_info : dict)
  : str :=
  match fmt with
  | Text => render validated_info
  | JSON => json_dumps validated_info
  | CSV => L "Key,Value" ++ [nl] ++ join [nl] (map csv_row validated_info)
  end.

(** *** Reading the renderings back

    The program only writes these texts.  The two readers below are
    the reading side that the specification's round trip speaks of: a
    JSON reader for the objects [json_dumps] writes, and a CSV reader
    that takes lines as records and commas as field separators. *)

Definition hex_value (c : ascii) : option nat :=
  if between 48 57 c then Some (code c - 48)
  else if between 97 102 c then Some (code c - 87)
  else if between 65 70 c then Some (code c - 55)
  else None.

(** The character a short escape stands for. *)
Definition json_unescape (e : ascii) : option ascii :=
  if Ascii.eqb e dq then Some dq
  else if Ascii.eqb e "\" then Some "\"
  else if Ascii.eqb e "/" then Some "/"
  else if Ascii.eqb e "n" then Some nl
  else if Ascii.eqb e "r" then Some "013"
  else if Ascii.eqb e "t" then Some "009"
  else if Ascii.eqb e "b" then Some "008"
  else if Ascii.eqb e "f" then Some "012"
  else None.

Definition with_char (c : ascii) (r : option (str * str))
  : option (str * str) :=
  match r with
  | Some (s, rest) => Some (c :: s, rest)
  | None => None
  end.

(** The string that starts after an opening quote, and the text after
    its closing quote. *)
Fixpoint read_json_string (s : str) : option (str * str) :=
  match s with
  | [] => None
  | c :: s1 =>
      if Ascii.eqb c dq then Some ([], s1)
      else if Ascii.eqb c "\" then
        match s1 with
        | [] => None
        | e :: s2 =>
            if Ascii.eqb e "u" then
              match s2 with
              | "0" :: "0" :: h :: l :: s3 =>
                  match hex_value h, hex_value l with
                  | Some hv, Some lv =>
                      with_char (ascii_of_nat (16 * hv + lv))
                        (read_json_string s3)
                  | _, _ => None
                  end
              | _ => None
              end
            else
              match json_unescape e with
              | Some x => with_char x (read_json_string s2)
              | None => None
              end
        end
      else with_char c (read_json_string s1)
  end.

(** The members of an object, from the quote that opens the first key
    to the closing brace. *)
Fixpoint read_json_members (fuel : nat) (s : str) : option dict :=
  match fuel with
  | 0 => None
  | S fuel' =>
      match s with
      | q :: s1 =>
          if Ascii.eqb q dq then
            match read_json_string s1 with
            | Some (k, ":" :: " " :: q' :: s2) =>
                if Ascii.eqb q' dq then
                  match read_json_string s2 with
                  | Some (v, "," :: n :: " " :: " " :: s3) =>
                      if Ascii.eqb n nl then
                        match read_json_members fuel' s3 with
                        | Some d => Some ((k, v) :: d)
                        | None => None
                        end
                      else None
                  | Some (v, [n; "}"]) =>
                      if Ascii.eqb n nl then Some [(k, v)] else None
                  | _ => None
                  end
                else None
            | _ => None
            end
          else None
      | [] => None
      end
  end.

Definition read_json (s : str) : option dict :=
  match s with
  | ["{"; "}"] => Some []
  | "{" :: n :: " " :: " " :: s1 =>
      if Ascii.eqb n nl then read_json_members (List.length s1) s1 else None
  | _ => None
  end.

(** A record of two fields. *)
Definition read_csv_row (row : str) : option (str * str) :=
  match split "," row with
  | [k; v] => Some (k, v)
  | _ => None
  end.

Fixpoint read_csv_rows (rows : list str) : option dict :=
  match rows with
  | [] => Some []
  | row :: rows' =>
      match read_csv_row row, read_csv_rows rows' with
      | Some kv, Some d => Some (kv :: d)
      | _, _ => None
      end
  end.

(** The header [Key,Value], then one record per line; the empty text
    after the header stands for no record. *)
Definition read_csv (s : str) : option dict :=
  match split nl s with
  | header :: rows =>
      if str_eqb header (L "Key,Value") then
        match rows with
        | [[]] => Some []
        | _ => read_csv_rows rows
        end
      else None
  | [] => None
  end.

(** Keys and values that the CSV text can carry: no comma, no newline. *)
Definition csv_safe (kv : str * str) : Prop :=
  ~ In "," (fst kv) /\ ~ In nl (fst kv) /\
  ~ In "," (snd kv) /\ ~ In nl (snd kv).

(** Two maps that the validator returns, with a comma in a key and in
    a value. *)
Definition comma_in_key : dict := validate_extracted_info (L "a,b: c").
Definition comma_in_value : dict := validate_extracted_info (L "a: b,c").

End Output.

(* ================================================================= *)
(** ** Preprocessing and the worker: files, the OCR service, signals *)

Module IO.
Import PyDict Bill.

(** How a call ends: with a value, or with an exception [e], kept as
    its message [str(e)]. *)
Inductive result (A : Type) : Type :=
| Ok (a : A)
| Raise (msg : str).
Arguments Ok {A} a.
Arguments Raise {A} msg.

(** A computation: the events it emits, in order, and how it ends. *)
Definition M (E A : Type) : Type := (list E * result A)%type.

Definition ret {E A} (a : A) : M E A := ([], Ok a).

Definition bind {E A B} (m : M E A) (f : A -> M E B) : M E B :=
  match m with
  | (t, Ok a) => (t ++ fst (f a), snd (f a))
  | (t, Raise msg) => (t, Raise msg)
  end.

Definition lift {E A} (r : result A) : M E A := ([], r).

Definition emit {E} (e : E) : M E unit := ([e], Ok tt).

(** [try: m  except Exception as e: handler(str(e))] *)
Definition try_except {E A} (m : M E A) (handler : str -> M E A) : M E A :=
  match m with
  | (t, Ok a) => (t, Ok a)
  | (t, Raise msg) => (t ++ fst (handler msg), snd (handler msg))
  end.

Declare Scope io_scope.
Delimit Scope io_scope with io.
Notation "x <- m ;; k" := (bind m (fun x => k))
  (at level 61, m at next level, right associativity) : io_scope.
Notation "m ;; k" := (bind m (fun _ => k))
  (at level 61, right associativity) : io_scope.
Local Open Scope io_scope.

(** The requests sent to the OCR service, with the bytes they carry. *)
Inductive ocr_call : Type :=
| DocumentTextDetection (content : str)
| TextDetection (content : str).

(** What lies outside the program: the file system, the PDF library
    and the OCR service.  They answer the same question the same way
    during one run. *)
Record world : Type := {
  page : Type;
  (** [open(path, 'rb')] and reading the file *)
  read_bytes : str -> result str;
  (** [open(path, 'r')] and [file.read()] *)
  read_text : str -> result str;
  (** [PyPDF2.PdfReader(pdf_file).pages] *)
  pdf_pages : str -> result (list page);
  (** [page.extract_text()] *)
  extract_text : page -> result str;
  (** [document_text_detection(image).full_text_annotation.text] *)
  document_text_detection : str -> result str;
  (** the descriptions of [text_detection(image).text_annotations] *)
  text_detection : str -> result (list str)
}.

Section Preprocessing.
Variable w : world.

(** [ocr_pdf] (lines 71-84) *)
Definition ocr_pdf (pdf_path : str) : M ocr_call str :=
  content <- lift (read_bytes w pdf_path) ;;
  emit (DocumentTextDetection content) ;;
  lift (document_text_detection w content).

(** The loop of lines 58-59: [text += page.extract_text() + "\n"]. *)
Fixpoint add_pages (pages : list (page w)) (text : str) : result str :=
  match pages with
  | [] => Ok text
  | p :: pages' =>
      match extract_text w p with
      | Ok t => add_pages pages' (text ++ t ++ [nl])
      | Raise msg => Raise msg
      end
  end.

(** [preprocess_pdf] (lines 52-69) *)
Definition preprocess_pdf (pdf_path : str) : M ocr_call str :=
  content <- lift (read_bytes w pdf_path) ;;
  pages <- lift (pdf_pages w content) ;;
  text <- lift (add_pages pages []) ;;
  match strip text with
  | [] => ocr_pdf pdf_path
  | _ :: _ => ret text
  end.

(** [preprocess_image] (lines 86-99) *)
Definition preprocess_image (image_path : str) : M ocr_call str :=
  content <- lift (read_bytes w image_path) ;;
  emit (TextDetection content) ;;
  annotations <- lift (text_detection w content) ;;
  ret (match annotations with
       | description :: _ => description
       | [] => []
       end).

(** [preprocess_document] (lines 38-50) *)
Definition preprocess_document (file_path : str) : M ocr_call str :=
  if endswith (L ".pdf") (lower file_path) then preprocess_pdf file_path
  else if endswith (L ".png") (lower file_path)
          || endswith (L ".jpg") (lower file_path)
          || endswith (L ".jpeg") (lower file_path)
  then preprocess_image file_path
  else lift (read_text w file_path).
End Preprocessing.

(** The text of pages, each followed by a newline. *)
Definition pages_text (texts : list str) : str :=
  flat_map (fun t => t ++ [nl]) texts.

(** *** The worker: [ExtractionThread.run] *)

Inductive signal : Type :=
| update_progress (value : nat) (status : str)
| extraction_complete (info : dict).

(** What a run does that can be seen from outside. *)
Inductive worker_event : Type :=
| Service (c : ocr_call)
| Signal (s : signal).

Definition stage {A} (m : M ocr_call A) : M worker_event A :=
  (map Service (fst m), snd m).

Section Worker.
(** The three stages, each free to raise. *)
Variable preprocess : str -> M ocr_call str.
Variable extract : str -> M ocr_call str.
Variable validate : str -> M ocr_call dict.

(** [run] (lines 164-179) *)
Definition run_stages (file_path : str) : M worker_event unit :=
  try_except
    (emit (Signal (update_progress 10 (L "Preprocessing document..."))) ;;
     preprocessed_text <- stage (preprocess file_path) ;;
     emit (Signal (update_progress 40 (L "Extracting information..."))) ;;
     extracted_info <- stage (extract preprocessed_text) ;;
     emit (Signal (update_progress 70 (L "Validating extracted information..."))) ;;
     validated_info <- stage (validate extracted_info) ;;
     emit (Signal (update_progress 100 (L "Extraction complete!"))) ;;
     emit (Signal (extraction_complete validated_info)))
    (fun msg => emit (Signal (update_progress 100 (L "Error: " ++ msg)))).
End Worker.

(** The worker over the program's own stages. *)
Definition run (w : world) (file_path : str) : M worker_event unit :=
  run_stages (preprocess_document w)
             (fun text => ret (extract_information text))
             (fun extracted => ret (validate_extracted_info extracted))
             file_path.

(** The signals among the events of a run. *)
Fixpoint signals (events : list worker_event) : list signal :=
  match events with
  | [] => []
  | Signal s :: events' => s :: signals events'
  | Service _ :: events' => signals events'
  end.

(** A progress update below 100 percent. *)
Definition is_partial_progress (s : signal) : bool :=
  match s with
  | update_progress value _ => value <? 100
  | extraction_complete _ => false
  end.

(** A PDF of one page that reads [A]. *)
Definition one_page_world : world := {|
  page := unit;
  read_bytes := fun _ => Ok (L "%PDF");
  read_text := fun _ => Ok (L "%PDF");
  pdf_pages := fun _ => Ok [tt];
  extract_text := fun _ => Ok (L "A");
  document_text_detection := fun _ => Ok (L "ocr text");
  text_detection := fun _ => Ok []
|}.

(** A scanned PDF: one page without embedded text. *)
Definition scanned_world : world := {|
  page := unit;
  read_bytes := fun _ => Ok (L "%PDF scan");
  read_text := fun _ => Ok (L "%PDF scan");
  pdf_pages := fun _ => Ok [tt];
  extract_text := fun _ => Ok (L "  ");
  document_text_detection := fun _ => Ok (L "Due Date: 01/02/2024");
  text_detection := fun _ => Ok []
|}.

(** A file that cannot be opened. *)
Definition missing_file_world : world := {|
  page := unit;
  read_bytes := fun _ => Raise (L "No such file or directory");
  read_text := fun _ => Raise (L "No such file or directory");
  pdf_pages := fun _ => Ok [];
  extract_text := fun _ => Ok [];
  document_text_detection := fun _ => Ok [];
  text_detection := fun _ => Ok []
|}.

End IO.

(* ================================================================= *)
(** ** Shapes of what the pipeline produces *)

Module Shape.
Import PyDict Re Bill.

(** The labels of the ten lines [extract_information] returns. *)
Definition labels : list str :=
  [ L "Invoice Number"; L "Invoice Date"; L "Amount Due"; L "Due Date";
    L "Account Number"; L "Billing Period"; L "Consumer Number";
    L "Product"; L "Quantity"; L "Rate" ].


(** An entry as the validator stores it: a key without blank, colon or
    newline, and a clean value that is not the sentinel. *)
Definition valid_entry (kv : str * str) : Prop :=
  ~ In " "%char (fst kv) /\ ~ In ":"%char (fst kv) /\ ~ In nl (fst kv) /\
  snd kv <> sentinel /\ clean (snd kv).

(** A character of a JSON text: printable ASCII, or the newline of the
    indentation. *)
Definition json_char (c : ascii) : bool :=
  between 32 126 c || Ascii.eqb c nl.

(** The test of line 43: the path ends with an image extension, in
    any letter case. *)
Definition is_image (path : str) : bool :=
  endswith (L ".png") (lower path) || endswith (L ".jpg") (lower path)
  || endswith (L ".jpeg") (lower path).

(** The test of line 41. *)
Definition is_pdf (path : str) : bool := endswith (L ".pdf") (lower path).

End Shape.

(* ================================================================= *)
(** ** The window: [BillExtractorGUI] *)

Module Gui.
Import PyDict Bill Output IO.

(** What the widgets show, and the [file_path] attribute, which the
    object has only once a file was selected. *)
Record gui : Type := {
  file_label : str;
  file_path : option str;
  output_format : Output.output_format;
  progress_bar : nat;
  status_label : str;
  result_text : str;
  extract_button_enabled : bool
}.

(** [select_file] (lines 218-222), with the path the dialog returns,
    empty when the dialog is cancelled. *)
Definition select_file (chosen : str) (g : gui) : gui :=
  match chosen with
  | [] => g
  | _ :: _ =>
      {| file_label := L "Selected file: " ++ chosen;
         file_path := Some chosen;
         output_format := output_format g;
         progress_bar := progress_bar g;
         status_label := status_label g;
         result_text := result_text g;
         extract_button_enabled := extract_button_enabled g |}
  end.

(** [extract_info] (lines 224-232): the window after the click, and
    the path given to the worker it starts, if it starts one. *)
Definition extract_info (g : gui) : gui * option str :=
  match file_path g with
  | Some path =>
      ({| file_label := file_label g;
          file_path := file_path g;
          output_format := output_format g;
          progress_bar := progress_bar g;
          status_label := status_label g;
          result_text := result_text g;
          extract_button_enabled := false |}, Some path)
  | None =>
      ({| file_label := file_label g;
          file_path := file_path g;
          output_format := output_format g;
          progress_bar := progress_bar g;
          status_label := status_label g;
          result_text := L "Please select a file first.";
          extract_button_enabled := extract_button_enabled g |}, None)
  end.

(** The slot [update_progress] (lines 234-236). *)
Definition slot_update_progress (value : nat) (status : str) (g : gui) : gui :=
  {| file_label := file_label g;
     file_path := file_path g;
     output_format := output_format g;
     progress_bar := value;
     status_label := status;
     result_text := result_text g;
     extract_button_enabled := extract_button_enabled g |}.

(** The slot [display_results] (lines 238-249). *)
Definition slot_display_results (validated_info : dict) (g : gui) : gui :=
  {| file_label := file_label g;
     file_path := file_path g;
     output_format := output_format g;
     progress_bar := progress_bar g;
     status_label := status_label g;
     result_text := display_results (output_format g) validated_info;
     extract_button_enabled := true |}.

(** A signal of the worker reaching the slot it is connected to
    (lines 227-228). *)
Definition deliver (g : gui) (s : signal) : gui :=
  match s with
  | update_progress value status => slot_update_progress value status g
  | extraction_complete info => slot_display_results info g
  end.

(** A click on the extract button, the worker's run, and its signals
    reaching the window in the order they were emitted. *)
Definition click_extract (w : world) (g : gui) : gui :=
  match extract_info g with
  | (g', Some path) => fold_left deliver (signals (fst (run w path))) g'
  | (g', None) => g'
  end.

(** A window in which a file was selected and nothing was run. *)
Definition ready_window (path : str) : gui := {|
  file_label := L "Selected file: " ++ path;
  file_path := Some path;
  output_format := CSV;
  progress_bar := 0;
  status_label := [];
  result_text := L "earlier result";
  extract_button_enabled := true
|}.

(** A PDF whose second page cannot be decoded. *)
Definition torn_world : world := {|
  page := bool;
  read_bytes := fun _ => Ok (L "%PDF torn");
  read_text := fun _ => Ok (L "%PDF torn");
  pdf_pages := fun _ => Ok [true; false];
  extract_text := fun p => if p then Ok (L "Invoice Number: 7")
                           else Raise (L "cannot decode page");
  document_text_detection := fun _ => Ok (L "ocr text");
  text_detection := fun _ => Ok []
|}.

(** A text file that holds the example of the specification. *)
Definition example_world : world := {|
  page := unit;
  read_bytes := fun _ => Ok example_text;
  read_text := fun _ => Ok example_text;
  pdf_pages := fun _ => Ok [];
  extract_text := fun _ => Ok [];
  document_text_detection := fun _ => Ok [];
  text_detection := fun _ => Ok []
|}.

End Gui.
Import Bill PyDict Re.

(* ================================================================= *)
(** ** Lemmas on strings and dictionaries *)

Lemma str_eqb_spec (a b : str) : reflect (a = b) (str_eqb a b).
Proof.
  revert b; induction a as [|x a IH]; intros [|y b]; simpl;
    try (constructor; congruence).
  destruct (Ascii.eqb_spec x y) as [->|Hxy]; simpl.
  - destruct (IH b) as [->|Hab]; constructor; congruence.
  - constructor; congruence.
Qed.

Lemma str_eqb_refl (a : str) : str_eqb a a = true.
Proof. destruct (str_eqb_spec a a); congruence. Qed.

Lemma str_eqb_neq (a b : str) : a <> b -> str_eqb a b = false.
Proof. destruct (str_eqb_spec a b); congruence. Qed.

Lemma get_set_same (d : dict) (k v : str) : get (set d k v) k = Some v.
Proof.
  induction d as [|[k' v'] d IH]; simpl.
  - now rewrite str_eqb_refl.
  - destruct (str_eqb k' k) eqn:E; simpl; rewrite E; auto.
Qed.

Lemma get_set_other (d : dict) (k k' v : str) :
  k <> k' -> get (set d k v) k' = get d k'.
Proof.
  intros Hk; induction d as [|[k0 v0] d IH]; simpl.
  - now rewrite str_eqb_neq.
  - destruct (str_eqb_spec k0 k) as [->|Hk0]; simpl.
    + now rewrite (str_eqb_neq k k').
    + now rewrite IH.
Qed.

Lemma keys_set_present (d : dict) (k v : str) :
  In k (keys d) -> keys (set d k v) = keys d.
Proof.
  unfold keys; induction d as [|[k0 v0] d IH]; simpl; [tauto|].
  intros [->|Hin].
  - now rewrite str_eqb_refl.
  - destruct (str_eqb k0 k); simpl; [reflexivity|]. now rewrite IH.
Qed.

Lemma set_absent (d : dict) (k v : str) :
  ~ In k (keys d) -> set d k v = d ++ [(k, v)].
Proof.
  unfold keys; induction d as [|[k0 v0] d IH]; simpl; [reflexivity|].
  intros Hn. rewrite str_eqb_neq by tauto. rewrite IH by tauto. reflexivity.
Qed.

(* ----------------------------------------------------------------- *)
(** ** Lemmas on the matcher *)

(** Whatever a match returns was returned by its continuation. *)
Lemma star_result {A} (p : ascii -> bool) (k : str -> option A) s res :
  star p k s = Some res -> exists s', k s' = Some res.
Proof.
  induction s as [|c s IH]; simpl; [eauto|].
  destruct (p c); [|eauto].
  destruct (star p k s) eqn:E; [|eauto].
  intros [= <-]. auto.
Qed.

Lemma exec_result (r : regex) : forall s cs k res,
  exec r s cs k = Some res -> exists s' cs', k s' cs' = Some res.
Proof.
  induction r as [c|p|r1 IH1 r2 IH2|r1 IH1 r2 IH2|r1 IH1|p|n r1 IH1];
    intros s cs k res; simpl.
  - destruct s as [|x s]; [discriminate|]. destruct (ci_eq c x); [eauto|discriminate].
  - destruct s as [|x s]; [discriminate|]. destruct (p x); [eauto|discriminate].
  - intros H. apply IH1 in H as (s1 & cs1 & H). eauto.
  - destruct (exec r1 s cs k) eqn:E; [intros [= <-]|]; eauto.
  - destruct (exec r1 s cs k) eqn:E; [intros [= <-]|]; eauto.
  - intros H. apply star_result in H as (s' & H). eauto.
  - intros H. apply IH1 in H as (s1 & cs1 & H). eauto.
Qed.

Lemma exec_last_group (r : regex) (n : nat) : forall s cs res,
  last_group r = Some n ->
  exec r s cs (fun _ cs' => Some cs') = Some res ->
  exists v, group n res = Some v.
Proof.
  induction r as [c|p|r1 IH1 r2 IH2|r1 IH1 r2 IH2|r1 IH1|p|m r1 IH1];
    intros s cs res; simpl; try discriminate.
  - intros Hl H. apply exec_result in H as (s1 & cs1 & H). eauto.
  - intros [= ->] H. apply exec_result in H as (s1 & cs1 & [= <-]).
    simpl. rewrite Nat.eqb_refl. eauto.
Qed.

Lemma search_match_here (r : regex) : forall s res,
  search r s = Some res -> exists i, match_here r (skipn i s) = Some res.
Proof.
  induction s as [|c s IH]; intros res; simpl.
  - destruct (match_here r []) eqn:E; [|discriminate].
    intros [= <-]. exists 0. exact E.
  - destruct (match_here r (c :: s)) eqn:E.
    + intros [= <-]. exists 0. exact E.
    + intros H. apply IH in H as [i H]. exists (S i). exact H.
Qed.

Lemma search_last_group (r : regex) (n : nat) s res :
  last_group r = Some n -> search r s = Some res ->
  exists v, group n res = Some v.
Proof.
  intros Hl H. apply search_match_here in H as [i H].
  eapply exec_last_group; eauto.
Qed.

(* ----------------------------------------------------------------- *)
(** ** The extraction loop *)

Lemma field_names_nodup : NoDup field_names.
Proof.
  unfold field_names.
  repeat (constructor; [cbv; intuition discriminate|]). constructor.
Qed.

Lemma patterns_keys : map fst patterns = field_names.
Proof. reflexivity. Qed.

Lemma initial_keys : keys initial_info = field_names.
Proof. reflexivity. Qed.

Lemma initial_get (key : str) :
  In key field_names -> get initial_info key = Some sentinel.
Proof.
  unfold field_names; simpl.
  intros H; repeat (destruct H as [<-|H]; [reflexivity|]). contradiction.
Qed.

Lemma fold_extract_keys (text : str) : forall ps info,
  incl (map fst ps) (keys info) ->
  keys (fold_left (extract_step text) ps info) = keys info.
Proof.
  induction ps as [|[k r] ps IH]; intros info Hincl; simpl; [reflexivity|].
  assert (Hk : keys (extract_step text info (k, r)) = keys info).
  { unfold extract_step; simpl. destruct (search r text); [|reflexivity].
    apply keys_set_present. apply Hincl. now left. }
  rewrite IH; rewrite Hk; [reflexivity|].
  intros x Hx. apply Hincl. now right.
Qed.

Lemma fold_extract_untouched (text : str) : forall ps info key,
  ~ In key (map fst ps) ->
  get (fold_left (extract_step text) ps info) key = get info key.
Proof.
  induction ps as [|[k r] ps IH]; intros info key Hn; simpl in *; [reflexivity|].
  rewrite IH by tauto. unfold extract_step; simpl.
  destruct (search r text); [|reflexivity].
  apply get_set_other. tauto.
Qed.

Lemma fold_extract_get (text : str) : forall ps info key pat,
  NoDup (map fst ps) -> In (key, pat) ps ->
  get (fold_left (extract_step text) ps info) key =
  match search pat text with
  | Some cs => Some (selected pat cs)
  | None => get info key
  end.
Proof.
  induction ps as [|[k r] ps IH]; intros info key pat Hnd Hin; simpl in *;
    [contradiction|].
  inversion Hnd as [|? ? Hk Hnd']; subst.
  destruct Hin as [[= -> ->]|Hin].
  - rewrite fold_extract_untouched by assumption.
    unfold extract_step; simpl.
    destruct (search pat text); [apply get_set_same|reflexivity].
  - rewrite (IH _ key pat Hnd' Hin).
    destruct (search pat text); [reflexivity|].
    unfold extract_step; simpl.
    destruct (search r text); [|reflexivity].
    apply get_set_other. intros Heq. apply Hk. rewrite Heq.
    change key with (fst (key, pat)). now apply in_map.
Qed.

(** Every pattern of the table has one or two groups, and ends with
    the group whose text the loop records. *)
Lemma patterns_shape (key : str) (pat : regex) :
  In (key, pat) patterns ->
  (ngroups pat = 1 \/ ngroups pat = 2) /\ last_group pat = Some (ngroups pat).
Proof.
  unfold patterns; simpl.
  intros H.
  repeat (destruct H as [[= <- <-]|H]; [split; [cbv; tauto|reflexivity]|]).
  contradiction.
Qed.

(** C3.  For every text and every entry of the pattern table: when the
    pattern is found in the text (case-insensitive, unanchored, the
    leftmost match), the field holds the text of group 1 if the pattern
    has exactly one group and of group 2 if it has two; when the
    pattern is not found the field holds the sentinel. *)
Theorem C3_field_value_is_selected_group (text key : str) (pat : regex) :
  In (key, pat) patterns ->
  (ngroups pat = 1 \/ ngroups pat = 2) /\
  match search pat text with
  | Some cs =>
      exists v, get (extraction_report text) key = Some v /\
                (ngroups pat = 1 -> group 1 cs = Some v) /\
                (ngroups pat = 2 -> group 2 cs = Some v)
  | None => get (extraction_report text) key = Some sentinel
  end.
Proof.
  intros Hin. destruct (patterns_shape key pat Hin) as [Hn Hlast].
  split; [exact Hn|].
  unfold extraction_report.
  rewrite (fold_extract_get text patterns initial_info key pat);
    [|rewrite patterns_keys; apply field_names_nodup|exact Hin].
  destruct (search pat text) as [cs|] eqn:Hs.
  - destruct (search_last_group pat _ text cs Hlast Hs) as [v Hv].
    exists v. unfold selected.
    destruct Hn as [Hn|Hn]; rewrite Hn in *; simpl;
      rewrite Hv; repeat split; auto; discriminate.
  - apply initial_get. rewrite <- patterns_keys.
    change key with (fst (key, pat)). now apply in_map.
Qed.

Lemma C3_witness :
  In (L "amount_due", amount_due_re) patterns /\
  (ngroups amount_due_re = 1 \/ ngroups amount_due_re = 2) /\
  match search amount_due_re example_text with
  | Some cs =>
      exists v, get (extraction_report example_text) (L "amount_due") = Some v /\
                (ngroups amount_due_re = 1 -> group 1 cs = Some v) /\
                (ngroups amount_due_re = 2 -> group 2 cs = Some v)
  | None => get (extraction_report example_text) (L "amount_due") = Some sentinel
  end.
Proof.
  assert (H : In (L "amount_due", amount_due_re) patterns)
    by (unfold patterns; simpl; tauto).
  split; [exact H|].
  exact (C3_field_value_is_selected_group example_text _ _ H).
Defined.

(** C5.  For every text the report has exactly the ten field names as
    its keys, each once, in the declared order. *)
Theorem C5_report_keys_fixed (text : str) :
  keys (extraction_report text) = field_names /\ NoDup field_names /\
  List.length field_names = 10.
Proof.
  split; [|split; [apply field_names_nodup|reflexivity]].
  unfold extraction_report. rewrite fold_extract_keys; [reflexivity|].
  rewrite patterns_keys, initial_keys. apply incl_refl.
Qed.

(* ----------------------------------------------------------------- *)
(** ** The example of the specification *)

(** C1, as amended.  On the example text the report holds the invoice
    number, the amount and the due date, and also an invoice date:
    the [Date] alternative of the invoice-date pattern is found inside
    [Due Date].  The six remaining fields hold the sentinel. *)
Theorem C1_example_report :
  extraction_report example_text =
  [ (L "invoice_number", L "INV123");
    (L "invoice_date", L "01/02/2024");
    (L "amount_due", L "1,234.50");
    (L "due_date", L "01/02/2024");
    (L "account_number", sentinel);
    (L "billing_period", sentinel);
    (L "consumer_number", sentinel);
    (L "product", sentinel);
    (L "quantity", sentinel);
    (L "rate", sentinel) ].
Proof. vm_compute. reflexivity. Qed.

(** C1 as the specification states it does not hold: the three named
    fields are as stated, but [invoice_date] is not the sentinel. *)
Lemma C1_counterexample :
  ~ (get (extraction_report example_text) (L "invoice_number") = Some (L "INV123") /\
     get (extraction_report example_text) (L "amount_due") = Some (L "1,234.50") /\
     get (extraction_report example_text) (L "due_date") = Some (L "01/02/2024") /\
     forall key,
       In key [ L "invoice_date"; L "account_number"; L "billing_period";
                L "consumer_number"; L "product"; L "quantity"; L "rate" ] ->
       get (extraction_report example_text) key = Some sentinel).
Proof.
  intros (_ & _ & _ & H).
  specialize (H (L "invoice_date") (or_introl eq_refl)).
  vm_compute in H. discriminate.
Qed.

(* ----------------------------------------------------------------- *)
(** ** Matching without captures *)

Lemma star_accepts {A} (p : ascii -> bool) (k : str -> option A)
  (kb : str -> bool) :
  (forall s, is_some (k s) = kb s) ->
  forall s, is_some (star p k s) = accepts_star p kb s.
Proof.
  intros Hk; induction s as [|c s IH]; simpl; [apply Hk|].
  destruct (p c); [|apply Hk].
  rewrite <- IH, <- Hk. now destruct (star p k s).
Qed.

Lemma accepts_star_ext (p : ascii -> bool) (k1 k2 : str -> bool) :
  (forall s, k1 s = k2 s) -> forall s, accepts_star p k1 s = accepts_star p k2 s.
Proof.
  intros Hk; induction s as [|c s IH]; simpl; [apply Hk|].
  now rewrite IH, Hk.
Qed.

Lemma accepts_ext (r : regex) : forall s k1 k2,
  (forall s', k1 s' = k2 s') -> accepts r s k1 = accepts r s k2.
Proof.
  induction r as [c|p|r1 IH1 r2 IH2|r1 IH1 r2 IH2|r1 IH1|p|n r1 IH1];
    intros s k1 k2 Hk; simpl.
  - destruct s; [reflexivity|]. now rewrite Hk.
  - destruct s; [reflexivity|]. now rewrite Hk.
  - apply IH1. intros s'. now apply IH2.
  - now rewrite (IH1 s k1 k2 Hk), (IH2 s k1 k2 Hk).
  - now rewrite (IH1 s k1 k2 Hk), Hk.
  - now apply accepts_star_ext.
  - now apply IH1.
Qed.

Lemma exec_accepts (r : regex) : forall s cs k kb,
  (forall s' cs', is_some (k s' cs') = kb s') ->
  is_some (exec r s cs k) = accepts r s kb.
Proof.
  induction r as [c|p|r1 IH1 r2 IH2|r1 IH1 r2 IH2|r1 IH1|p|n r1 IH1];
    intros s cs k kb Hk; simpl.
  - destruct s as [|x s]; [reflexivity|]. destruct (ci_eq c x); simpl; auto.
  - destruct s as [|x s]; [reflexivity|]. destruct (p x); simpl; auto.
  - apply IH1. intros s' cs'. now apply IH2.
  - rewrite <- (IH1 s cs k kb Hk), <- (IH2 s cs k kb Hk).
    now destruct (exec r1 s cs k).
  - rewrite <- (IH1 s cs k kb Hk), <- (Hk s cs).
    now destruct (exec r1 s cs k).
  - apply star_accepts. intros s'. apply Hk.
  - apply IH1. intros s' cs'. apply Hk.
Qed.

Lemma match_here_accepts (r : regex) (s : str) :
  is_some (match_here r s) = accepts r s (fun _ => true).
Proof. unfold match_here. now apply exec_accepts. Qed.

Lemma accepts_lits (w : str) : forall s k,
  accepts (lits w) s k = ci_prefix w s && k (skipn (List.length w) s).
Proof.
  induction w as [|c w IH]; intros s k; simpl; [now destruct s|].
  destruct w as [|c' w].
  - simpl. destruct s as [|x s]; [reflexivity|].
    simpl. now rewrite andb_true_r.
  - change (accepts (Cat (Lit c) (lits (c' :: w))) s k =
            ci_prefix (c :: c' :: w) s && k (skipn (S (List.length (c' :: w))) s)).
    simpl accepts at 1. destruct s as [|x s]; [reflexivity|].
    rewrite IH. simpl. now rewrite andb_assoc.
Qed.

Lemma ci_prefix_app (a b s : str) :
  ci_prefix (a ++ b) s = ci_prefix a s && ci_prefix b (skipn (List.length a) s).
Proof.
  revert s; induction a as [|c a IH]; intros s; simpl; [reflexivity|].
  destruct s as [|x s]; simpl.
  - now destruct b.
  - now rewrite IH, andb_assoc.
Qed.

(** Skipping the positions that have no match. *)
Lemma search_skip (r : regex) : forall n s,
  n <= List.length s ->
  (forall i, i < n -> match_here r (skipn i s) = None) ->
  search r s = search r (skipn n s).
Proof.
  induction n as [|n IH]; intros s Hlen Hnone; [reflexivity|].
  destruct s as [|c s]; [simpl in Hlen; lia|].
  assert (H0 : match_here r (c :: s) = None) by (apply (Hnone 0); lia).
  simpl search at 1. rewrite H0.
  simpl skipn. apply IH; [simpl in Hlen; lia|].
  intros i Hi. apply (Hnone (S i)). lia.
Qed.

Lemma search_here (r : regex) (s : str) (cs : caps) :
  match_here r s = Some cs -> search r s = Some cs.
Proof. intros H. destruct s; simpl; now rewrite H. Qed.

(* ----------------------------------------------------------------- *)
(** ** The invoice-date pattern inside [Due Date] *)

Lemma digit_not_space (c : ascii) : digit c = true -> space c = false.
Proof.
  destruct c as [[] [] [] [] [] [] [] []]; vm_compute; congruence.
Qed.

Lemma consumed_app (a b : str) : consumed (a ++ b) b = a.
Proof.
  unfold consumed.
  rewrite length_app, Nat.add_sub. rewrite firstn_app, Nat.sub_diag.
  rewrite firstn_all. simpl. apply app_nil_r.
Qed.

Lemma slash_date_inv (dt : str) :
  slash_date dt = true ->
  exists d1 d2 d3 d4 d5 d6 d7 d8,
    dt = [d1; d2; "/"; d3; d4; "/"; d5; d6; d7; d8] /\
    digit d1 = true /\ digit d2 = true /\ digit d3 = true /\ digit d4 = true /\
    digit d5 = true /\ digit d6 = true /\ digit d7 = true /\ digit d8 = true.
Proof.
  destruct dt as [|d1 [|d2 [|s1 [|d3 [|d4 [|s2 [|d5 [|d6 [|d7 [|d8 [|? ?]]]]]]]]]]];
    try discriminate.
  unfold slash_date. rewrite !andb_true_iff.
  intros (((((((((H1 & H2) & Hs1) & H3) & H4) & Hs2) & H5) & H6) & H7) & H8).
  apply Ascii.eqb_eq in Hs1, Hs2. subst.
  exists d1, d2, d3, d4, d5, d6, d7, d8. repeat split; assumption.
Qed.

Arguments digit : simpl never.
Arguments space : simpl never.
Arguments consumed : simpl never.

Lemma invoice_date_at (dt post : str) :
  slash_date dt = true ->
  match_here invoice_date_re (L "Date: " ++ dt ++ post) =
  Some [(2, dt); (1, L "Date")].
Proof.
  intros Hdt.
  destruct (slash_date_inv dt Hdt)
    as (d1 & d2 & d3 & d4 & d5 & d6 & d7 & d8 & -> & H1 & H2 & H3 & H4 & H5 & H6 & H7 & H8).
  unfold match_here, invoice_date_re, sep, date, word. simpl.
  rewrite (digit_not_space d1 H1), H1, H2, H3, H4, H5, H6, H7, H8.
  repeat f_equal.
  - exact (consumed_app [d1; d2; "/"; d3; d4; "/"; d5; d6; d7; d8] post).
  - exact (consumed_app (L "Date") _).
Qed.

Lemma due_date_at (dt post : str) :
  slash_date dt = true ->
  match_here due_date_re (L "Due Date: " ++ dt ++ post) = Some [(1, dt)].
Proof.
  intros Hdt.
  destruct (slash_date_inv dt Hdt)
    as (d1 & d2 & d3 & d4 & d5 & d6 & d7 & d8 & -> & H1 & H2 & H3 & H4 & H5 & H6 & H7 & H8).
  unfold match_here, due_date_re, sep, date, word. simpl.
  rewrite (digit_not_space d1 H1), H1, H2, H3, H4, H5, H6, H7, H8.
  repeat f_equal.
  exact (consumed_app [d1; d2; "/"; d3; d4; "/"; d5; d6; d7; d8] post).
Qed.

(** Where the due-date pattern matches, the invoice-date pattern
    matches four characters further, on the word [Date]. *)
Lemma due_date_implies_invoice_date (s : str) :
  match_here due_date_re s <> None ->
  match_here invoice_date_re (skipn 4 s) <> None.
Proof.
  intros Hdue.
  assert (Ha : accepts due_date_re s (fun _ => true) = true).
  { rewrite <- match_here_accepts. now destruct (match_here due_date_re s). }
  assert (Hb : accepts invoice_date_re (skipn 4 s) (fun _ => true) = true).
  { unfold due_date_re, word in Ha. simpl accepts in Ha.
    change (accepts (lits (L "Due Date")) s
              (fun s' => accepts (Cat sep date) s' (fun _ => true)) = true) in Ha.
    rewrite accepts_lits in Ha.
    change (L "Due Date") with (L "Due " ++ L "Date") in Ha.
    rewrite ci_prefix_app, length_app in Ha.
    apply andb_true_iff in Ha as [Hp Ht]. apply andb_true_iff in Hp as [_ Hp].
    unfold invoice_date_re, word.
    change (accepts (lits (L "Invoice Date")) (skipn 4 s)
              (fun s' => accepts (Cat sep date) s' (fun _ => true))
            || accepts (lits (L "Date")) (skipn 4 s)
                 (fun s' => accepts (Cat sep date) s' (fun _ => true)) = true).
    rewrite (accepts_lits (L "Date")).
    change (List.length (L "Due ")) with 4 in *.
    change (List.length (L "Date")) with 4 in *.
    rewrite Hp. rewrite skipn_skipn. rewrite Ht.
    apply orb_true_r. }
  rewrite <- match_here_accepts in Hb.
  now destruct (match_here invoice_date_re (skipn 4 s)).
Qed.

Lemma skipn_past (a b : str) (n : nat) :
  skipn (List.length a + n) (a ++ b) = skipn n b.
Proof. induction a as [|c a IH]; simpl; auto. Qed.

(** A bounded check that a pattern has no match before a position. *)
Lemma none_before (r : regex) (s : str) (n : nat) :
  forallb (fun i => negb (is_some (match_here r (skipn i s)))) (seq 0 n) = true ->
  forall i, i < n -> match_here r (skipn i s) = None.
Proof.
  intros H i Hi. rewrite forallb_forall in H.
  specialize (H i). rewrite in_seq in H.
  destruct (match_here r (skipn i s)); [|reflexivity].
  simpl in H. discriminate H. lia.
Qed.

(** C9.  When the text holds [Due Date: ] followed by a date written
    dd/dd/dddd, and the invoice-date pattern has no match that starts
    before the word [Date] of that label, the report gives this date
    both as [invoice_date] and as [due_date]. *)
Theorem C9_due_date_also_sets_invoice_date (pre dt post : str) :
  slash_date dt = true ->
  (forall i, i < List.length pre + 4 ->
     match_here invoice_date_re
       (skipn i (pre ++ L "Due Date: " ++ dt ++ post)) = None) ->
  get (extraction_report (pre ++ L "Due Date: " ++ dt ++ post))
      (L "invoice_date") = Some dt /\
  get (extraction_report (pre ++ L "Due Date: " ++ dt ++ post))
      (L "due_date") = Some dt.
Proof.
  intros Hdt Hnone.
  set (text := pre ++ L "Due Date: " ++ dt ++ post) in *.
  assert (Hnd : NoDup (map fst patterns))
    by (rewrite patterns_keys; apply field_names_nodup).
  assert (Hlen : List.length pre + 8 <= List.length text).
  { unfold text. rewrite !length_app. simpl. lia. }
  assert (Hinv : search invoice_date_re text = Some [(2, dt); (1, L "Date")]).
  { rewrite (search_skip invoice_date_re (List.length pre + 4) text);
      [|lia|exact Hnone].
    unfold text. rewrite skipn_past. apply search_here.
    exact (invoice_date_at dt post Hdt). }
  assert (Hdue : search due_date_re text = Some [(1, dt)]).
  { rewrite (search_skip due_date_re (List.length pre) text); [|lia|].
    - unfold text. rewrite <- (Nat.add_0_r (List.length pre)), skipn_past.
      apply search_here. exact (due_date_at dt post Hdt).
    - intros i Hi.
      destruct (match_here due_date_re (skipn i text)) eqn:E; [|reflexivity].
      exfalso. apply (due_date_implies_invoice_date (skipn i text)).
      + rewrite E. discriminate.
      + rewrite skipn_skipn. apply Hnone. lia. }
  unfold extraction_report. split.
  - rewrite (fold_extract_get text patterns initial_info _ invoice_date_re Hnd);
      [|unfold patterns; simpl; tauto].
    rewrite Hinv. reflexivity.
  - rewrite (fold_extract_get text patterns initial_info _ due_date_re Hnd);
      [|unfold patterns; simpl; tauto].
    rewrite Hdue. reflexivity.
Qed.

Lemma C9_witness :
  get (extraction_report example_text) (L "invoice_date") = Some (L "01/02/2024") /\
  get (extraction_report example_text) (L "due_date") = Some (L "01/02/2024").
Proof.
  apply (C9_due_date_also_sets_invoice_date
           (L "Invoice Number: INV123" ++ [nl] ++
            L "Total Amount Due: Rs. 1,234.50" ++ [nl])
           (L "01/02/2024") []).
  - vm_compute. reflexivity.
  - apply none_before. vm_compute. reflexivity.
Defined.

(* ----------------------------------------------------------------- *)
(** ** Splitting, joining and stripping *)

Lemma split_no_sep (sep : ascii) (s : str) :
  ~ In sep s -> split sep s = [s].
Proof.
  induction s as [|c s IH]; simpl; [reflexivity|].
  intros Hn. destruct (Ascii.eqb_spec c sep) as [->|_]; [tauto|].
  rewrite IH by tauto. reflexivity.
Qed.

Lemma split_app_sep (sep : ascii) (a b : str) :
  ~ In sep a -> split sep (a ++ sep :: b) = a :: split sep b.
Proof.
  induction a as [|c a IH]; simpl; intros Hn.
  - now rewrite Ascii.eqb_refl.
  - destruct (Ascii.eqb_spec c sep) as [->|_]; [tauto|].
    rewrite IH by tauto. reflexivity.
Qed.

Lemma split_join (sep : ascii) (pieces : list str) :
  pieces <> [] -> Forall (fun p => ~ In sep p) pieces ->
  split sep (join [sep] pieces) = pieces.
Proof.
  induction pieces as [|p rest IH]; [congruence|].
  intros _ Hall. inversion Hall as [|? ? Hp Hrest]; subst.
  destruct rest as [|q rest].
  - simpl. now apply split_no_sep.
  - change (join [sep] (p :: q :: rest)) with (p ++ sep :: join [sep] (q :: rest)).
    rewrite split_app_sep by assumption.
    rewrite IH; [reflexivity|discriminate|assumption].
Qed.

Lemma split_once_first (sep : ascii) (a b : str) :
  ~ In sep a -> split_once sep (a ++ sep :: b) = Some (a, b).
Proof.
  induction a as [|c a IH]; simpl; intros Hn.
  - now rewrite Ascii.eqb_refl.
  - destruct (Ascii.eqb_spec c sep) as [->|_]; [tauto|].
    rewrite IH by tauto. reflexivity.
Qed.

Lemma split_once_none (sep : ascii) (s : str) :
  ~ In sep s -> split_once sep s = None.
Proof.
  induction s as [|c s IH]; simpl; [reflexivity|].
  intros Hn. destruct (Ascii.eqb_spec c sep) as [->|_]; [tauto|].
  rewrite IH by tauto. reflexivity.
Qed.

Lemma lstrip_keeps (c : ascii) (s : str) :
  isspace c = false -> In c s -> In c (lstrip s).
Proof.
  intros Hc; induction s as [|x s IH]; simpl; [tauto|].
  destruct (isspace x) eqn:Hx; [|simpl; tauto].
  intros [->|Hin]; [congruence|auto].
Qed.

Lemma strip_keeps (c : ascii) (s : str) :
  isspace c = false -> In c s -> In c (strip s).
Proof.
  intros Hc Hin. unfold strip, rstrip.
  rewrite <- in_rev. apply lstrip_keeps; [assumption|].
  rewrite <- in_rev. now apply lstrip_keeps.
Qed.

Lemma lstrip_sub (c : ascii) (s : str) : In c (lstrip s) -> In c s.
Proof.
  induction s as [|x s IH]; simpl; [tauto|].
  destruct (isspace x); simpl; tauto.
Qed.

Lemma strip_sub (c : ascii) (s : str) : In c (strip s) -> In c s.
Proof.
  unfold strip, rstrip. rewrite <- in_rev. intros H.
  apply lstrip_sub in H. rewrite <- in_rev in H. now apply lstrip_sub in H.
Qed.

Lemma strip_after_blank (v : str) : strip (" " :: v) = strip v.
Proof. reflexivity. Qed.

(* ----------------------------------------------------------------- *)
(** ** The validator, line by line *)

Lemma validate_lines (lines : list str) :
  Forall (fun l => ~ In nl l) lines ->
  validate_extracted_info (join [nl] lines) = fold_left validate_line lines [].
Proof.
  intros Hall. unfold validate_extracted_info.
  destruct lines as [|l lines]; [reflexivity|].
  rewrite split_join; [reflexivity|discriminate|assumption].
Qed.

Lemma validate_line_colon (acc : dict) (key rest : str) :
  ~ In ":" key -> In ":" rest ->
  validate_line acc (key ++ ":" :: rest) =
  set acc (normalize_key key) (strip rest).
Proof.
  intros Hk Hr. unfold validate_line.
  rewrite split_once_first by assumption.
  rewrite str_eqb_neq; [reflexivity|].
  intros Heq. apply (strip_keeps ":") in Hr; [|reflexivity].
  rewrite Heq in Hr. vm_compute in Hr. intuition discriminate.
Qed.

Lemma validate_line_plain (acc : dict) (line : str) :
  ~ In ":" line -> validate_line acc line = acc.
Proof.
  intros Hn. unfold validate_line. now rewrite split_once_none.
Qed.

(** C10.  In a text of lines, a line [key:rest] whose key has no colon
    and whose rest has one adds the entry that maps the normalised key
    to the whole stripped rest, colons included; a line without a
    colon adds nothing, the text validates as it does without it. *)
Theorem C10_first_colon_splits_the_line
  (before after : list str) (key rest plain : str) :
  Forall (fun l => ~ In nl l) (before ++ after) ->
  ~ In nl key -> ~ In nl rest -> ~ In nl plain ->
  ~ In ":" key -> In ":" rest -> ~ In ":" plain ->
  validate_extracted_info (join [nl] (before ++ (key ++ ":" :: rest) :: after)) =
    fold_left validate_line after
      (set (fold_left validate_line before []) (normalize_key key) (strip rest))
  /\ In ":" (strip rest)
  /\ validate_extracted_info (join [nl] (before ++ plain :: after)) =
     validate_extracted_info (join [nl] (before ++ after)).
Proof.
  intros Hall Hk Hr Hp Hck Hcr Hcp.
  apply Forall_app in Hall as [Hb Ha].
  split; [|split].
  - rewrite validate_lines.
    + rewrite fold_left_app. simpl. now rewrite validate_line_colon.
    + apply Forall_app. split; [assumption|]. constructor; [|assumption].
      intros Hin. apply in_app_or in Hin as [Hin|[Hin|Hin]];
        [tauto|discriminate|tauto].
  - now apply strip_keeps.
  - rewrite !validate_lines.
    + rewrite !fold_left_app. simpl. now rewrite validate_line_plain.
    + apply Forall_app. now split.
    + apply Forall_app. split; [assumption|]. now constructor.
Qed.

Lemma C10_witness :
  validate_extracted_info
    (join [nl] ([L "Name: A"] ++ (L "Billing Time" ++ ":" :: L " 10:30:00 ") :: [L "Rate: 5"])) =
    [ (L "name", L "A"); (L "billing_time", L "10:30:00"); (L "rate", L "5") ]
  /\ validate_extracted_info (join [nl] ([L "Name: A"] ++ L "no colon here" :: [L "Rate: 5"])) =
     validate_extracted_info (join [nl] ([L "Name: A"] ++ [L "Rate: 5"])).
Proof.
  assert (Hnl : forall s : string, forallb (fun c => negb (Ascii.eqb c nl)) (L s) = true ->
                                   ~ In nl (L s)).
  { intros s H Hin. rewrite forallb_forall in H. apply H in Hin.
    now rewrite Ascii.eqb_refl in Hin. }
  assert (Hcolon : forall s : string, forallb (fun c => negb (Ascii.eqb c ":")) (L s) = true ->
                                      ~ In ":" (L s)).
  { intros s H Hin. rewrite forallb_forall in H. apply H in Hin.
    now rewrite Ascii.eqb_refl in Hin. }
  destruct (C10_first_colon_splits_the_line
              [L "Name: A"] [L "Rate: 5"] (L "Billing Time") (L " 10:30:00 ")
              (L "no colon here")) as (H1 & _ & H3).
  - repeat constructor; apply Hnl; reflexivity.
  - apply Hnl; reflexivity.
  - apply Hnl; reflexivity.
  - apply Hnl; reflexivity.
  - apply Hcolon; reflexivity.
  - vm_compute; tauto.
  - apply Hcolon; reflexivity.
  - split; [exact H1|exact H3].
Defined.

(* ----------------------------------------------------------------- *)
(** ** Rendering a report and validating the rendering *)

Lemma not_in_existsb (c : ascii) (s : str) :
  existsb (Ascii.eqb c) s = false -> ~ In c s.
Proof.
  intros H Hin. assert (existsb (Ascii.eqb c) s = true); [|congruence].
  apply existsb_exists. exists c. split; [assumption|apply Ascii.eqb_refl].
Qed.

Lemma field_names_roundtrip : forallb key_roundtrips field_names = true.
Proof. vm_compute. reflexivity. Qed.

Lemma validate_rendered_line (acc : dict) (k v : str) :
  key_roundtrips k = true ->
  validate_line acc (render_line (k, v)) =
  if str_eqb (strip v) sentinel then acc else set acc k (strip v).
Proof.
  unfold key_roundtrips. cbv zeta. rewrite !andb_true_iff, !negb_true_iff.
  intros [[Hk Hc] _].
  destruct (str_eqb_spec (normalize_key (title (replace "_" " " k))) k)
    as [Hk'|]; [|discriminate].
  unfold validate_line, render_line. simpl fst. simpl snd.
  change (L ": " ++ v) with (":" :: " " :: v).
  rewrite split_once_first by now apply not_in_existsb.
  rewrite strip_after_blank, Hk'. reflexivity.
Qed.

Lemma rendered_line_no_nl (k v : str) :
  key_roundtrips k = true -> ~ In nl v -> ~ In nl (render_line (k, v)).
Proof.
  unfold key_roundtrips. cbv zeta. rewrite !andb_true_iff, !negb_true_iff.
  intros [_ Hn] Hv. unfold render_line. simpl fst. simpl snd.
  intros Hin. apply in_app_or in Hin as [Hin|Hin].
  - now apply not_in_existsb in Hn.
  - apply in_app_or in Hin as [Hin|Hin]; [|tauto].
    vm_compute in Hin. intuition discriminate.
Qed.

Lemma fold_validate_rendered : forall (info acc : dict),
  Forall (fun kv => key_roundtrips (fst kv) = true) info ->
  NoDup (keys acc ++ keys info) ->
  fold_left validate_line (map render_line info) acc =
  acc ++ direct_filter (stripped info).
Proof.
  induction info as [|[k v] info IH]; intros acc Hall Hnd; simpl.
  - now rewrite app_nil_r.
  - inversion Hall as [|? ? Hk Hrest]; subst. simpl in Hk.
    rewrite validate_rendered_line by assumption.
    simpl in Hnd.
    destruct (str_eqb (strip v) sentinel); simpl.
    + apply IH; [assumption|]. now apply NoDup_remove_1 in Hnd.
    + rewrite set_absent.
      * rewrite IH; [now rewrite <- app_assoc|assumption|].
        unfold keys in *. rewrite map_app, <- app_assoc. exact Hnd.
      * apply NoDup_remove_2 in Hnd. intros Hin. apply Hnd.
        apply in_or_app. now left.
Qed.

(** What the validator makes of a rendered report, for any values
    without newlines: the entries whose stripped value is not the
    sentinel, with the stripped values. *)
Lemma validate_render_strips (info : dict) :
  keys info = field_names ->
  Forall (fun kv => ~ In nl (snd kv)) info ->
  validate_extracted_info (render info) = direct_filter (stripped info).
Proof.
  intros Hkeys Hvals.
  assert (Hrt : Forall (fun kv => key_roundtrips (fst kv) = true) info).
  { apply Forall_forall. intros kv Hin.
    pose proof field_names_roundtrip as H. rewrite forallb_forall in H.
    apply H. rewrite <- Hkeys. unfold keys. now apply in_map. }
  unfold render. rewrite validate_lines.
  - rewrite fold_validate_rendered; [reflexivity|assumption|].
    simpl. rewrite Hkeys. apply field_names_nodup.
  - apply Forall_forall. intros l Hin. apply in_map_iff in Hin as ([k v] & <- & Hin).
    rewrite Forall_forall in Hrt, Hvals.
    apply rendered_line_no_nl; [exact (Hrt _ Hin)|exact (Hvals _ Hin)].
Qed.

Lemma stripped_clean (info : dict) :
  Forall (fun kv => clean (snd kv)) info -> stripped info = info.
Proof.
  induction 1 as [|[k v] info [_ Hv] _ IH]; simpl; [reflexivity|].
  simpl in Hv. now rewrite Hv, IH.
Qed.

(** C2, as amended.  For every report over the ten field names whose
    values have no newline and no white space at either end,
    validating the rendering gives exactly the entries whose value is
    not the sentinel, under their snake_case keys and with their
    values as they are: it is the direct filter of the report. *)
Theorem C2_render_then_validate_is_filter (info : dict) :
  keys info = field_names ->
  Forall (fun kv => clean (snd kv)) info ->
  validate_extracted_info (render info) = direct_filter info.
Proof.
  intros Hkeys Hvals.
  rewrite validate_render_strips; [|assumption|].
  - now rewrite stripped_clean.
  - apply Forall_forall. intros kv Hin. rewrite Forall_forall in Hvals.
    exact (proj1 (Hvals kv Hin)).
Qed.

Lemma C2_witness :
  validate_extracted_info (render (extraction_report example_text)) =
  direct_filter (extraction_report example_text).
Proof.
  apply C2_render_then_validate_is_filter.
  - vm_compute. reflexivity.
  - repeat constructor;
      solve [vm_compute; intuition discriminate | vm_compute; reflexivity].
Defined.

(** C2 as the specification states it, for arbitrary values without
    newlines, does not hold: the validator strips the value, so the
    leading blank of the invoice number is lost. *)
Lemma C2_counterexample :
  keys padded_report = field_names /\
  Forall (fun kv => ~ In nl (snd kv)) padded_report /\
  get (direct_filter padded_report) (L "invoice_number") = Some (L " INV123") /\
  get (validate_extracted_info (render padded_report)) (L "invoice_number")
    = Some (L "INV123") /\
  validate_extracted_info (render padded_report) <> direct_filter padded_report.
Proof.
  split; [reflexivity|]. split; [|split; [reflexivity|split; [reflexivity|]]].
  - repeat constructor; vm_compute; intuition discriminate.
  - vm_compute. discriminate.
Qed.

(* ================================================================= *)
(** ** PDF preprocessing *)

Import IO.

Lemma add_pages_texts (w : world) : forall pages texts text,
  Forall2 (fun p t => extract_text w p = Ok t) pages texts ->
  add_pages w pages text = Ok (text ++ pages_text texts).
Proof.
  induction pages as [|p pages IH]; intros texts text Hall;
    inversion Hall as [|? t ? texts' Hp Hrest]; subst; simpl.
  - now rewrite app_nil_r.
  - rewrite Hp. rewrite (IH texts') by assumption.
    now rewrite <- !app_assoc.
Qed.

Lemma preprocess_pdf_read (w : world) (path content : str)
  (pages : list (page w)) (texts : list str) :
  read_bytes w path = Ok content ->
  pdf_pages w content = Ok pages ->
  Forall2 (fun p t => extract_text w p = Ok t) pages texts ->
  preprocess_pdf w path =
  match strip (pages_text texts) with
  | [] => ([DocumentTextDetection content], document_text_detection w content)
  | _ :: _ => ([], Ok (pages_text texts))
  end.
Proof.
  intros Hread Hpages Htexts.
  unfold preprocess_pdf, ocr_pdf, bind, lift, emit, ret.
  rewrite Hread, Hpages. simpl.
  rewrite (add_pages_texts w pages texts []) by assumption. simpl.
  destruct (strip (pages_text texts)); reflexivity.
Qed.

(** C4.  For a [.pdf] file whose pages give only blank text (or no
    text, or that has no page), preprocessing sends one request to the
    OCR service, a document text detection on the bytes of the file,
    sends nothing else, and ends as that request ends: with the text
    the service returns, unchanged. *)
Theorem C4_blank_pdf_falls_back_to_ocr (w : world) (path content : str)
  (pages : list (page w)) (texts : list str) :
  endswith (L ".pdf") (lower path) = true ->
  read_bytes w path = Ok content ->
  pdf_pages w content = Ok pages ->
  Forall2 (fun p t => extract_text w p = Ok t) pages texts ->
  strip (pages_text texts) = [] ->
  preprocess_document w path =
  ([DocumentTextDetection content], document_text_detection w content).
Proof.
  intros Hpdf Hread Hpages Htexts Hblank.
  unfold preprocess_document. rewrite Hpdf.
  rewrite (preprocess_pdf_read w path content pages texts) by assumption.
  now rewrite Hblank.
Qed.

Lemma C4_witness :
  preprocess_document scanned_world (L "bills/March.PDF") =
  ([DocumentTextDetection (L "%PDF scan")], Ok (L "Due Date: 01/02/2024")).
Proof.
  apply (C4_blank_pdf_falls_back_to_ocr scanned_world (L "bills/March.PDF")
           (L "%PDF scan") [tt] [L "  "]).
  - reflexivity.
  - reflexivity.
  - reflexivity.
  - repeat constructor.
  - reflexivity.
Defined.

(** C8, as amended.  For a [.pdf] file whose pages give text that is
    not blank, preprocessing sends nothing to the OCR service and
    returns the text of every page followed by a newline: a newline
    between consecutive pages, and one after the last page. *)
Theorem C8_pdf_text_is_pages_with_newlines (w : world) (path content : str)
  (pages : list (page w)) (texts : list str) :
  endswith (L ".pdf") (lower path) = true ->
  read_bytes w path = Ok content ->
  pdf_pages w content = Ok pages ->
  Forall2 (fun p t => extract_text w p = Ok t) pages texts ->
  strip (pages_text texts) <> [] ->
  preprocess_document w path = ([], Ok (pages_text texts)) /\
  pages_text texts = join [nl] texts ++ [nl].
Proof.
  intros Hpdf Hread Hpages Htexts Hblank.
  split.
  - unfold preprocess_document. rewrite Hpdf.
    rewrite (preprocess_pdf_read w path content pages texts) by assumption.
    destruct (strip (pages_text texts)); [contradiction|reflexivity].
  - destruct texts as [|t texts]; [simpl in Hblank; contradiction|].
    clear. revert t. induction texts as [|t' texts IH]; intros t.
    + simpl. now rewrite app_nil_r.
    + change (pages_text (t :: t' :: texts))
        with ((t ++ [nl]) ++ pages_text (t' :: texts)).
      change (join [nl] (t :: t' :: texts))
        with (t ++ [nl] ++ join [nl] (t' :: texts)).
      rewrite IH. now rewrite <- !app_assoc.
Qed.

Lemma C8_witness :
  preprocess_document one_page_world (L "bill.pdf") = ([], Ok (L "A" ++ [nl])) /\
  L "A" ++ [nl] = join [nl] [L "A"] ++ [nl].
Proof.
  apply (C8_pdf_text_is_pages_with_newlines one_page_world (L "bill.pdf")
           (L "%PDF") [tt] [L "A"]).
  - reflexivity.
  - reflexivity.
  - reflexivity.
  - repeat constructor.
  - vm_compute. discriminate.
Defined.

(** C8 as the specification states it does not hold: a PDF of one
    page that reads [A] gives [A] and a newline, not the pages joined
    by a newline separator, which is [A] alone. *)
Lemma C8_counterexample :
  preprocess_document one_page_world (L "bill.pdf") = ([], Ok (L "A" ++ [nl])) /\
  preprocess_document one_page_world (L "bill.pdf") <> ([], Ok (join [nl] [L "A"])).
Proof.
  split; [reflexivity|]. vm_compute. discriminate.
Qed.

(* ================================================================= *)
(** ** The worker's error boundary *)

Lemma signals_app (a b : list worker_event) :
  signals (a ++ b) = signals a ++ signals b.
Proof.
  induction a as [|[c|s] a IH]; simpl; [reflexivity|exact IH|now rewrite IH].
Qed.

Lemma signals_service (calls : list ocr_call) : signals (map Service calls) = [].
Proof. induction calls; simpl; auto. Qed.

(** C7.  Whichever stage raises, with message [msg]: the run ends
    without an exception; its last signal is a progress update of 100
    whose status is [Error: ] followed by [msg]; every signal before it
    is a progress update below 100, so the run emits one update of 100
    and no [extraction_complete]. *)
Theorem C7_stage_error_is_caught_and_reported
  (preprocess extract : str -> M ocr_call str)
  (validate : str -> M ocr_call dict) (path msg : str) :
  ((exists t1, preprocess path = (t1, Raise msg)) \/
   (exists t1 text t2,
      preprocess path = (t1, Ok text) /\ extract text = (t2, Raise msg)) \/
   (exists t1 text t2 extracted t3,
      preprocess path = (t1, Ok text) /\ extract text = (t2, Ok extracted) /\
      validate extracted = (t3, Raise msg))) ->
  snd (run_stages preprocess extract validate path) = Ok tt /\
  exists earlier,
    signals (fst (run_stages preprocess extract validate path)) =
      earlier ++ [update_progress 100 (L "Error: " ++ msg)] /\
    forallb is_partial_progress earlier = true.
Proof.
  intros [(t1 & H1)|[(t1 & text & t2 & H1 & H2)|(t1 & text & t2 & ex & t3 & H1 & H2 & H3)]];
    unfold run_stages, try_except, bind, stage, emit; simpl.
  - rewrite H1. simpl. split; [reflexivity|].
    exists [update_progress 10 (L "Preprocessing document...")].
    rewrite signals_app, signals_service. split; reflexivity.
  - rewrite H1. simpl. rewrite H2. simpl. split; [reflexivity|].
    exists [update_progress 10 (L "Preprocessing document...");
            update_progress 40 (L "Extracting information...")].
    repeat (rewrite ?signals_app, ?signals_service; simpl).
    split; reflexivity.
  - rewrite H1. simpl. rewrite H2. simpl. rewrite H3. simpl.
    split; [reflexivity|].
    exists [update_progress 10 (L "Preprocessing document...");
            update_progress 40 (L "Extracting information...");
            update_progress 70 (L "Validating extracted information...")].
    repeat (rewrite ?signals_app, ?signals_service; simpl).
    split; reflexivity.
Qed.

Lemma C7_witness :
  snd (run missing_file_world (L "bill.txt")) = Ok tt /\
  exists earlier,
    signals (fst (run missing_file_world (L "bill.txt"))) =
      earlier ++ [update_progress 100 (L "Error: No such file or directory")] /\
    forallb is_partial_progress earlier = true.
Proof.
  apply (C7_stage_error_is_caught_and_reported
           (preprocess_document missing_file_world)
           (fun text => ret (extract_information text))
           (fun extracted => ret (validate_extracted_info extracted))
           (L "bill.txt") (L "No such file or directory")).
  left. exists []. reflexivity.
Defined.

(* ================================================================= *)
(** ** Reading the JSON and CSV renderings back *)

Import Output.

Lemma read_json_escape (c : ascii) (rest : str) :
  read_json_string (json_escape c ++ rest) =
  with_char c (read_json_string rest).
Proof.
  destruct c as [[] [] [] [] [] [] [] []]; reflexivity.
Qed.

Lemma read_json_escaped (s rest : str) :
  read_json_string (flat_map json_escape s ++ dq :: rest) = Some (s, rest).
Proof.
  induction s as [|c s IH]; simpl.
  - reflexivity.
  - rewrite <- app_assoc, read_json_escape, IH. reflexivity.
Qed.

Lemma json_member_shape (k v rest : str) :
  json_member (k, v) ++ rest =
  dq :: flat_map json_escape k ++
  dq :: ":" :: " " :: dq :: flat_map json_escape v ++ dq :: rest.
Proof.
  unfold json_member, json_string. simpl.
  rewrite <- !app_assoc. simpl. rewrite <- !app_assoc. reflexivity.
Qed.

Lemma read_json_last (fuel : nat) (k v : str) :
  read_json_members (S fuel) (json_member (k, v) ++ [nl; "}"]) = Some [(k, v)].
Proof.
  rewrite json_member_shape.
  cbn [read_json_members]. rewrite Ascii.eqb_refl, read_json_escaped.
  rewrite Ascii.eqb_refl, read_json_escaped. reflexivity.
Qed.

Lemma read_json_more (fuel : nat) (k v rest : str) :
  read_json_members (S fuel)
    (json_member (k, v) ++ "," :: nl :: " " :: " " :: rest) =
  match read_json_members fuel rest with
  | Some d => Some ((k, v) :: d)
  | None => None
  end.
Proof.
  rewrite json_member_shape.
  cbn [read_json_members]. rewrite Ascii.eqb_refl, read_json_escaped.
  rewrite Ascii.eqb_refl, read_json_escaped. reflexivity.
Qed.

Lemma read_json_joined : forall (d : dict) (kv : str * str) (fuel : nat),
  List.length d < fuel ->
  read_json_members fuel
    (join ("," :: nl :: L "  ") (map json_member (kv :: d)) ++ [nl; "}"]) =
  Some (kv :: d).
Proof.
  induction d as [|kv' d IH]; intros [k v] fuel Hfuel.
  - destruct fuel as [|fuel]; [simpl in Hfuel; lia|]. apply read_json_last.
  - destruct fuel as [|fuel]; [simpl in Hfuel; lia|].
    change (join ("," :: nl :: L "  ") (map json_member ((k, v) :: kv' :: d)))
      with (json_member (k, v) ++ ("," :: nl :: L "  ") ++
            join ("," :: nl :: L "  ") (map json_member (kv' :: d))).
    rewrite <- !app_assoc.
    change (("," :: nl :: L "  ") ++
            join ("," :: nl :: L "  ") (map json_member (kv' :: d)) ++ [nl; "}"])
      with ("," :: nl :: " " :: " " ::
            (join ("," :: nl :: L "  ") (map json_member (kv' :: d)) ++ [nl; "}"])).
    rewrite read_json_more, IH; [reflexivity|simpl in Hfuel; lia].
Qed.

Lemma joined_members_length (sep : str) : forall (d : dict),
  List.length d <= List.length (join sep (map json_member d)).
Proof.
  induction d as [|kv d IH]; [simpl; lia|].
  destruct d as [|kv' d].
  - simpl. unfold json_member, json_string. simpl. lia.
  - change (join sep (map json_member (kv :: kv' :: d)))
      with (json_member kv ++ sep ++ join sep (map json_member (kv' :: d))).
    rewrite !length_app. unfold json_member at 1, json_string. simpl in *. lia.
Qed.

(** Every dictionary of strings reads back from its JSON text. *)
Lemma read_json_dumps (d : dict) : read_json (json_dumps d) = Some d.
Proof.
  destruct d as [|kv d]; [reflexivity|].
  unfold json_dumps.
  change (L "{" ++ [nl] ++ L "  " ++
          join ("," :: nl :: L "  ") (map json_member (kv :: d)) ++ [nl] ++ L "}")
    with ("{" :: nl :: " " :: " " ::
          (join ("," :: nl :: L "  ") (map json_member (kv :: d)) ++ [nl; "}"])).
  cbn [read_json]. rewrite Ascii.eqb_refl.
  apply read_json_joined.
  rewrite length_app.
  pose proof (joined_members_length ("," :: nl :: L "  ") (kv :: d)) as H.
  simpl in *. lia.
Qed.

Lemma read_csv_row_plain (k v : str) :
  ~ In "," k -> ~ In "," v -> read_csv_row (csv_row (k, v)) = Some (k, v).
Proof.
  intros Hk Hv. unfold read_csv_row, csv_row. simpl fst. simpl snd.
  rewrite split_app_sep by assumption.
  rewrite split_no_sep by assumption. reflexivity.
Qed.

Lemma read_csv_rows_plain (d : dict) :
  Forall (fun kv => ~ In "," (fst kv) /\ ~ In "," (snd kv)) d ->
  read_csv_rows (map csv_row d) = Some d.
Proof.
  induction d as [|[k v] d IH]; intros Hall; [reflexivity|].
  inversion Hall as [|? ? [Hk Hv] Hrest]; subst. simpl in Hk, Hv.
  cbn [map read_csv_rows].
  rewrite read_csv_row_plain, IH by assumption. reflexivity.
Qed.

Lemma csv_row_no_nl (k v : str) :
  ~ In nl k -> ~ In nl v -> ~ In nl (csv_row (k, v)).
Proof.
  intros Hk Hv Hin. unfold csv_row in Hin. simpl in Hin.
  apply in_app_or in Hin as [Hin|[Hin|Hin]]; [tauto|discriminate|tauto].
Qed.

Lemma read_csv_display (d : dict) :
  Forall csv_safe d -> read_csv (display_results CSV d) = Some d.
Proof.
  intros Hall. unfold display_results, read_csv.
  change (L "Key,Value" ++ [nl] ++ join [nl] (map csv_row d))
    with (L "Key,Value" ++ nl :: join [nl] (map csv_row d)).
  rewrite split_app_sep by (vm_compute; intuition discriminate).
  rewrite str_eqb_refl.
  destruct d as [|[k v] d]; [reflexivity|].
  rewrite split_join.
  - rewrite read_csv_rows_plain.
    + cbn [map]. unfold csv_row at 1. simpl fst. simpl snd.
      destruct k; simpl; reflexivity.
    + apply Forall_forall. intros kv Hin. rewrite Forall_forall in Hall.
      destruct (Hall kv Hin) as (H1 & _ & H3 & _). now split.
  - discriminate.
  - apply Forall_forall. intros row Hin.
    apply in_map_iff in Hin as ([k' v'] & <- & Hin).
    rewrite Forall_forall in Hall.
    destruct (Hall _ Hin) as (_ & H2 & _ & H4). now apply csv_row_no_nl.
Qed.

(** C6, as amended.  For every map whose keys and values hold no
    comma and no newline, the JSON text and the CSV text hold the same
    key/value pairs, under the same snake_case keys: each of them
    reads back to the map itself.  (The JSON text does so for every
    map.) *)
Theorem C6_json_and_csv_read_back (d : dict) :
  Forall csv_safe d ->
  read_json (display_results JSON d) = Some d /\
  read_csv (display_results CSV d) = Some d.
Proof.
  intros Hall. split; [apply read_json_dumps|now apply read_csv_display].
Qed.

Lemma C6_witness :
  read_json (display_results JSON [(L "invoice_number", L "INV123"); (L "rate", L "72.5")])
    = Some [(L "invoice_number", L "INV123"); (L "rate", L "72.5")] /\
  read_csv (display_results CSV [(L "invoice_number", L "INV123"); (L "rate", L "72.5")])
    = Some [(L "invoice_number", L "INV123"); (L "rate", L "72.5")].
Proof.
  apply C6_json_and_csv_read_back.
  repeat constructor; vm_compute; intuition discriminate.
Defined.

(** C6 as the specification states it, for every map, does not hold.
    The map that validation returns for the example text has the amount
    [1,234.50]: its CSV record has three fields and the text does not
    read back, while the JSON text does.  And two different maps that
    the validator returns have the same CSV text, so that no reader
    can give both back. *)
Lemma C6_counterexample :
  let info := validate_extracted_info (extract_information example_text) in
  get info (L "amount_due") = Some (L "1,234.50") /\
  read_json (display_results JSON info) = Some info /\
  read_csv (display_results CSV info) <> Some info /\
  split "," (csv_row (L "amount_due", L "1,234.50")) =
    [L "amount_due"; L "1"; L "234.50"] /\
  comma_in_key <> comma_in_value /\
  display_results CSV comma_in_key = display_results CSV comma_in_value.
Proof.
  cbv zeta. split; [reflexivity|]. split; [apply read_json_dumps|].
  split; [vm_compute; discriminate|]. split; [reflexivity|].
  split; [vm_compute; discriminate|reflexivity].
Qed.

(* ================================================================= *)
(** ** What the groups of the table can capture

    The matcher only takes texts of the pattern's language, so the
    value of every field is a text of the language of the group that
    closes its pattern: it has no newline in it and no white space at
    either end, and validation of the rendered report is the direct
    filter of the report. *)

Lemma star_sound {A} (p : ascii -> bool) (k : str -> option A) : forall s res,
  star p k s = Some res ->
  exists a s', s = a ++ s' /\ Forall (fun x => p x = true) a /\ k s' = Some res.
Proof.
  induction s as [|c s IH]; intros res; simpl.
  - intros H. exists [], []. auto.
  - destruct (p c) eqn:Hc.
    + destruct (star p k s) as [x|] eqn:E.
      * intros [= <-]. destruct (IH x eq_refl) as (a & s' & -> & Ha & Hk).
        exists (c :: a), s'. auto.
      * intros H. exists [], (c :: s). auto.
    + intros H. exists [], (c :: s). auto.
Qed.

Lemma exec_sound (r : regex) : forall s cs k res,
  exec r s cs k = Some res ->
  exists a s' cs', s = a ++ s' /\ Lang r a /\ k s' cs' = Some res.
Proof.
  induction r as [c|p|r1 IH1 r2 IH2|r1 IH1 r2 IH2|r1 IH1|p|n r1 IH1];
    intros s cs k res; simpl.
  - destruct s as [|x s]; [discriminate|].
    destruct (ci_eq c x) eqn:E; [|discriminate].
    intros H. exists [x], s, cs. eauto.
  - destruct s as [|x s]; [discriminate|].
    destruct (p x) eqn:E; [|discriminate].
    intros H. exists [x], s, cs. eauto.
  - intros H. apply IH1 in H as (a1 & s1 & cs1 & -> & Ha1 & H).
    apply IH2 in H as (a2 & s2 & cs2 & -> & Ha2 & H).
    exists (a1 ++ a2), s2, cs2. rewrite <- app_assoc. eauto 7.
  - destruct (exec r1 s cs k) eqn:E.
    + intros [= <-]. apply IH1 in E as (a & s' & cs' & -> & Ha & H). eauto 7.
    + intros H. apply IH2 in H as (a & s' & cs' & -> & Ha & H). eauto 7.
  - destruct (exec r1 s cs k) eqn:E.
    + intros [= <-]. apply IH1 in E as (a & s' & cs' & -> & Ha & H). eauto 7.
    + intros H. exists [], s, cs. auto.
  - intros H. apply star_sound in H as (a & s' & -> & Ha & H). eauto 7.
  - intros H. apply IH1 in H as (a & s' & cs' & -> & Ha & H). eauto 7.
Qed.

Lemma exec_last_group_lang (r g : regex) (n : nat) : forall s cs res,
  last_group r = Some n -> last_group_body r = Some g ->
  exec r s cs (fun _ cs' => Some cs') = Some res ->
  exists v, group n res = Some v /\ Lang g v.
Proof.
  induction r as [c|p|r1 IH1 r2 IH2|r1 IH1 r2 IH2|r1 IH1|p|m r1 IH1];
    intros s cs res; simpl; try discriminate.
  - intros Hl Hb H. apply exec_result in H as (s1 & cs1 & H). eauto.
  - intros [= ->] [= ->] H.
    apply exec_sound in H as (a & s' & cs' & -> & Ha & [= <-]).
    exists a. simpl. rewrite Nat.eqb_refl, consumed_app. auto.
Qed.

Lemma lang_chars (q : ascii -> bool) (r : regex) : forall a,
  chars_in q r -> Lang r a -> Forall (fun x => q x = true) a.
Proof.
  induction r as [c|p|r1 IH1 r2 IH2|r1 IH1 r2 IH2|r1 IH1|p|n r1 IH1];
    intros a; simpl.
  - intros Hq (x & -> & Hx). auto.
  - intros Hq (x & -> & Hx). auto.
  - intros [H1 H2] (a1 & a2 & -> & Ha1 & Ha2). apply Forall_app. auto.
  - intros [H1 H2] [Ha|Ha]; auto.
  - intros H1 [->|Ha]; auto.
  - intros Hq Ha. eapply Forall_impl; [|exact Ha]. auto.
  - auto.
Qed.

Lemma lstrip_solid (x : ascii) (a : str) :
  solid x = true -> lstrip (x :: a) = x :: a.
Proof.
  unfold solid. rewrite negb_true_iff. intros H. simpl. now rewrite H.
Qed.

Lemma edges_clean (x y : ascii) (a b : str) :
  x :: a = b ++ [y] -> solid x = true -> solid y = true ->
  ~ In nl (x :: a) -> clean (x :: a).
Proof.
  intros Heq Hx Hy Hnl. split; [assumption|].
  unfold strip, rstrip. rewrite lstrip_solid by assumption.
  rewrite Heq, rev_app_distr. simpl rev at 2. simpl app.
  rewrite lstrip_solid by assumption.
  change (y :: rev b) with ([y] ++ rev b).
  now rewrite rev_app_distr, rev_involutive.
Qed.

Lemma solid_clean (v : str) :
  Forall (fun x => solid x = true) v -> clean v.
Proof.
  intros Hall. destruct v as [|x a]; [split; [tauto|reflexivity]|].
  assert (Hnl : ~ In nl (x :: a)).
  { intros Hin. rewrite Forall_forall in Hall. apply Hall in Hin. discriminate. }
  destruct (exists_last (l := x :: a)) as (b & y & Heq); [discriminate|].
  apply (edges_clean x y a b Heq); [now inversion Hall| |assumption].
  rewrite Forall_forall in Hall. apply Hall. rewrite Heq.
  apply in_or_app. right. now left.
Qed.

(** Discharging [chars_in] on a pattern of the table: every set and
    every literal is checked on the 256 characters. *)
Ltac check_chars :=
  cbn -[wordchar digit_or one_of digit space ci_eq solid]; repeat split;
  intros x; destruct x as [[] [] [] [] [] [] [] []]; vm_compute;
  intros H; first [reflexivity | discriminate H].

Lemma wordchars_solid : chars_in solid (Plus wordchar).
Proof. check_chars. Qed.

Lemma date_solid : chars_in solid date.
Proof. unfold date. check_chars. Qed.

Lemma amount_solid : chars_in solid (Plus (digit_or ",.")).
Proof. check_chars. Qed.

Lemma number_solid : chars_in solid (Plus (digit_or ".")).
Proof. check_chars. Qed.

Lemma product_solid : chars_in solid (Alt (word "PETROL") (Plus wordchar)).
Proof. check_chars. Qed.

Lemma period_no_nl : chars_in (fun c => negb (Ascii.eqb c nl)) period_re.
Proof. unfold period_re. check_chars. Qed.

Lemma period_edge_solid (x : ascii) : digit_or "/" x = true -> solid x = true.
Proof.
  destruct x as [[] [] [] [] [] [] [] []]; vm_compute;
    intros H; first [reflexivity | discriminate H].
Qed.

Lemma period_clean (v : str) : Lang period_re v -> clean v.
Proof.
  intros HL.
  assert (Hnl : ~ In nl v).
  { intros Hin. pose proof (lang_chars _ _ v period_no_nl HL) as Hall.
    rewrite Forall_forall in Hall. apply Hall in Hin.
    now rewrite Ascii.eqb_refl in Hin. }
  destruct HL as (a1 & a23 & -> & (h1 & t1 & -> & (x1 & -> & Hx1) & Ht1) & HL).
  destruct HL as (a2 & a3 & -> & _ & (h3 & t3 & -> & (x3 & -> & Hx3) & Ht3)).
  simpl in Ht1, Ht3. simpl app in *.
  destruct (exists_last (l := x3 :: t3)) as (b & y & Heq); [discriminate|].
  assert (Hy : digit_or "/" y = true).
  { assert (Hin : In y (x3 :: t3))
      by (rewrite Heq; apply in_or_app; right; now left).
    destruct Hin as [<-|Hin]; [assumption|].
    rewrite Forall_forall in Ht3. now apply Ht3. }
  apply (edges_clean x1 y _ (x1 :: t1 ++ a2 ++ b)).
  - simpl. f_equal. rewrite Heq. now rewrite <- !app_assoc.
  - now apply period_edge_solid.
  - now apply period_edge_solid.
  - exact Hnl.
Qed.

Lemma table_captures_clean (key : str) (pat : regex) :
  In (key, pat) patterns ->
  exists g, last_group_body pat = Some g /\ forall v, Lang g v -> clean v.
Proof.
  unfold patterns; simpl. intros H.
  repeat (destruct H as [[= <- <-]|H];
          [eexists; split; [reflexivity|];
           first [ exact period_clean
                 | intros v Hv; apply solid_clean;
                   first [ exact (lang_chars _ _ v wordchars_solid Hv)
                         | exact (lang_chars _ _ v date_solid Hv)
                         | exact (lang_chars _ _ v amount_solid Hv)
                         | exact (lang_chars _ _ v number_solid Hv)
                         | exact (lang_chars _ _ v product_solid Hv) ] ] |]).
  contradiction.
Qed.

Lemma selected_clean (text key : str) (pat : regex) (cs : caps) :
  In (key, pat) patterns -> search pat text = Some cs ->
  clean (selected pat cs).
Proof.
  intros Hin Hs.
  destruct (patterns_shape key pat Hin) as [Hn Hlast].
  destruct (table_captures_clean key pat Hin) as (g & Hg & Hclean).
  apply search_match_here in Hs as [i Hs].
  destruct (exec_last_group_lang pat g _ _ _ _ Hlast Hg Hs) as (v & Hv & HL).
  unfold selected.
  destruct Hn as [Hn|Hn]; rewrite Hn in *; simpl; rewrite Hv; simpl; auto.
Qed.

Lemma set_values (P : str -> Prop) : forall (d : dict) (k v : str),
  Forall (fun kv => P (snd kv)) d -> P v ->
  Forall (fun kv => P (snd kv)) (set d k v).
Proof.
  induction d as [|[k0 v0] d IH]; intros k v Hall Hv; simpl.
  - now constructor.
  - inversion Hall; subst.
    destruct (str_eqb k0 k); constructor; auto.
Qed.

Lemma fold_extract_clean (text : str) : forall ps info,
  incl ps patterns ->
  Forall (fun kv => clean (snd kv)) info ->
  Forall (fun kv => clean (snd kv)) (fold_left (extract_step text) ps info).
Proof.
  induction ps as [|[k r] ps IH]; intros info Hincl Hall; simpl; [assumption|].
  apply IH; [intros x Hx; apply Hincl; now right|].
  unfold extract_step; simpl.
  destruct (search r text) as [cs|] eqn:Hs; [|assumption].
  apply set_values; [assumption|].
  apply (selected_clean text k r cs); [apply Hincl; now left|assumption].
Qed.

(** Every value of a report is clean. *)
Lemma report_values_clean (text : str) :
  Forall (fun kv => clean (snd kv)) (extraction_report text).
Proof.
  apply fold_extract_clean; [apply incl_refl|].
  repeat constructor; vm_compute; intuition discriminate.
Qed.

(** On every text, validating what [extract_information] returns is
    filtering the report directly. *)
Theorem validate_extracted_is_direct_filter (text : str) :
  validate_extracted_info (extract_information text) =
  direct_filter (extraction_report text).
Proof.
  pose proof (report_values_clean text) as Hclean.
  unfold extract_information.
  rewrite validate_render_strips.
  - now rewrite stripped_clean.
  - unfold extraction_report. rewrite fold_extract_keys; [reflexivity|].
    rewrite patterns_keys, initial_keys. apply incl_refl.
  - apply Forall_forall. intros kv Hin. rewrite Forall_forall in Hclean.
    exact (proj1 (Hclean kv Hin)).
Qed.

(* ================================================================= *)
(** * Further properties of the program *)

Import Shape.

(* ----------------------------------------------------------------- *)
(** ** Extraction and validation together *)

Lemma keys_filter_nodup (f : str * str -> bool) : forall d : dict,
  NoDup (keys d) -> NoDup (keys (filter f d)).
Proof.
  unfold keys. induction d as [|[k v] d IH]; simpl; intros Hnd; [constructor|].
  inversion Hnd as [|? ? Hk Hnd']; subst.
  destruct (f (k, v)); simpl; [|auto].
  constructor; [|auto].
  intros Hin. apply Hk. apply in_map_iff in Hin as (kv & <- & Hin).
  apply filter_In in Hin as [Hin _]. now apply in_map.
Qed.

Lemma get_absent (d : dict) (k : str) : ~ In k (keys d) -> get d k = None.
Proof.
  unfold keys. induction d as [|[k0 v0] d IH]; simpl; [reflexivity|].
  intros Hn. rewrite str_eqb_neq by tauto. apply IH. tauto.
Qed.

Lemma get_direct_filter : forall (d : dict) (k : str),
  NoDup (keys d) ->
  get (direct_filter d) k =
  match get d k with
  | Some v => if str_eqb v sentinel then None else Some v
  | None => None
  end.
Proof.
  induction d as [|[k0 v0] d IH]; intros k Hnd; [reflexivity|].
  inversion Hnd as [|? ? Hk Hnd']; subst.
  unfold direct_filter in *. simpl.
  destruct (str_eqb_spec k0 k) as [->|Hne].
  - destruct (str_eqb v0 sentinel); simpl.
    + apply get_absent. intros Hin. apply Hk.
      unfold keys in *. apply in_map_iff in Hin as (kv & <- & Hin).
      apply filter_In in Hin as [Hin _]. now apply in_map.
    + now rewrite str_eqb_refl.
  - destruct (str_eqb v0 sentinel); simpl.
    + now apply IH.
    + rewrite str_eqb_neq by assumption. now apply IH.
Qed.

Lemma report_keys (text : str) : keys (extraction_report text) = field_names.
Proof.
  unfold extraction_report. rewrite fold_extract_keys; [reflexivity|].
  rewrite patterns_keys, initial_keys. apply incl_refl.
Qed.

Lemma report_get (text key : str) (pat : regex) :
  In (key, pat) patterns ->
  get (extraction_report text) key =
  match search pat text with
  | Some cs => Some (selected pat cs)
  | None => Some sentinel
  end.
Proof.
  intros Hin. unfold extraction_report.
  rewrite (fold_extract_get text patterns initial_info key pat);
    [|rewrite patterns_keys; apply field_names_nodup|exact Hin].
  destruct (search pat text); [reflexivity|].
  apply initial_get. rewrite <- patterns_keys.
  change key with (fst (key, pat)). now apply in_map.
Qed.

(** No group of the table can capture the sentinel: it has a blank,
    and it starts with a letter. *)
Lemma solid_not_sentinel (v : str) :
  Forall (fun x => solid x = true) v -> v <> sentinel.
Proof.
  intros Hall ->. rewrite Forall_forall in Hall.
  specialize (Hall " "%char). discriminate Hall. vm_compute. tauto.
Qed.

Lemma period_not_sentinel (v : str) : Lang period_re v -> v <> sentinel.
Proof.
  intros (a1 & a23 & -> & (h1 & t1 & -> & (x1 & -> & Hx1) & _) & _) Heq.
  injection Heq as -> _. vm_compute in Hx1. discriminate.
Qed.

Lemma table_captures_not_sentinel (key : str) (pat : regex) :
  In (key, pat) patterns ->
  exists g, last_group_body pat = Some g /\ forall v, Lang g v -> v <> sentinel.
Proof.
  unfold patterns; simpl. intros H.
  repeat (destruct H as [[= <- <-]|H];
          [eexists; split; [reflexivity|];
           first [ exact period_not_sentinel
                 | intros v Hv; apply solid_not_sentinel;
                   first [ exact (lang_chars _ _ v wordchars_solid Hv)
                         | exact (lang_chars _ _ v date_solid Hv)
                         | exact (lang_chars _ _ v amount_solid Hv)
                         | exact (lang_chars _ _ v number_solid Hv)
                         | exact (lang_chars _ _ v product_solid Hv) ] ] |]).
  contradiction.
Qed.

(** The value recorded on a match is a text of the closing group. *)
Lemma selected_lang (text key : str) (pat : regex) (cs : caps) :
  In (key, pat) patterns -> search pat text = Some cs ->
  exists g, last_group_body pat = Some g /\ Lang g (selected pat cs).
Proof.
  intros Hin Hs.
  destruct (patterns_shape key pat Hin) as [Hn Hlast].
  destruct (table_captures_clean key pat Hin) as (g & Hg & _).
  apply search_match_here in Hs as [i Hs].
  destruct (exec_last_group_lang pat g _ _ _ _ Hlast Hg Hs) as (v & Hv & HL).
  exists g. split; [assumption|]. unfold selected.
  destruct Hn as [Hn|Hn]; rewrite Hn in *; simpl; rewrite Hv; simpl; auto.
Qed.

Lemma selected_not_sentinel (text key : str) (pat : regex) (cs : caps) :
  In (key, pat) patterns -> search pat text = Some cs ->
  selected pat cs <> sentinel.
Proof.
  intros Hin Hs.
  destruct (selected_lang text key pat cs Hin Hs) as (g & Hg & HL).
  destruct (table_captures_not_sentinel key pat Hin) as (g' & Hg' & Hns).
  rewrite Hg in Hg'. injection Hg' as <-. now apply Hns.
Qed.

Lemma validated_found (text key : str) (pat : regex) (cs : caps) :
  In (key, pat) patterns -> search pat text = Some cs ->
  get (validate_extracted_info (extract_information text)) key =
  Some (selected pat cs).
Proof.
  intros Hin Hs.
  rewrite validate_extracted_is_direct_filter.
  rewrite get_direct_filter
    by (rewrite report_keys; apply field_names_nodup).
  rewrite (report_get text key pat Hin), Hs.
  rewrite str_eqb_neq; [reflexivity|].
  now apply (selected_not_sentinel text key pat cs).
Qed.

Lemma validated_not_found (text key : str) (pat : regex) :
  In (key, pat) patterns -> search pat text = None ->
  get (validate_extracted_info (extract_information text)) key = None.
Proof.
  intros Hin Hs.
  rewrite validate_extracted_is_direct_filter.
  rewrite get_direct_filter
    by (rewrite report_keys; apply field_names_nodup).
  rewrite (report_get text key pat Hin), Hs. reflexivity.
Qed.

(** X1.  The map that validation returns for the text that
    [extract_information] returns has a field exactly when the
    field's pattern is found in the input, and then holds the text of
    the recorded group: a captured text is never mistaken for the
    sentinel. *)
Theorem validated_field_iff_pattern_found (text key : str) (pat : regex) :
  In (key, pat) patterns ->
  get (validate_extracted_info (extract_information text)) key =
  match search pat text with
  | Some cs => Some (selected pat cs)
  | None => None
  end.
Proof.
  intros Hin.
  destruct (search pat text) as [cs|] eqn:Hs.
  - now apply (validated_found text key pat cs).
  - now apply (validated_not_found text key pat).
Qed.

Lemma validated_field_iff_pattern_found_witness :
  get (validate_extracted_info (extract_information example_text))
      (L "amount_due") = Some (L "1,234.50").
Proof.
  assert (H : In (L "amount_due", amount_due_re) patterns)
    by (unfold patterns; simpl; tauto).
  exact (validated_field_iff_pattern_found example_text _ _ H).
Defined.

(** X2.  When no pattern of the table is found in the text, every
    field of the report is the sentinel and validation returns the
    empty map. *)
Theorem nothing_found_gives_empty_result (text : str) :
  (forall key pat, In (key, pat) patterns -> search pat text = None) ->
  extraction_report text = initial_info /\
  validate_extracted_info (extract_information text) = [].
Proof.
  intros Hnone.
  assert (Hrep : extraction_report text = initial_info).
  { unfold extraction_report.
    assert (Hfold : forall ps info, incl ps patterns ->
              fold_left (extract_step text) ps info = info).
    { induction ps as [|[k r] ps IH]; intros info Hincl; [reflexivity|].
      simpl. unfold extract_step at 2. simpl.
      rewrite (Hnone k r) by (apply Hincl; now left).
      apply IH. intros x Hx. apply Hincl. now right. }
    apply Hfold. apply incl_refl. }
  split; [exact Hrep|].
  rewrite validate_extracted_is_direct_filter, Hrep. reflexivity.
Qed.

Lemma nothing_found_gives_empty_result_witness :
  extraction_report (L "thank you for your visit") = initial_info /\
  validate_extracted_info (extract_information (L "thank you for your visit")) = [].
Proof.
  apply nothing_found_gives_empty_result.
  intros key pat Hin. unfold patterns in Hin. simpl in Hin.
  repeat (destruct Hin as [[= <- <-]|Hin]; [vm_compute; reflexivity|]).
  contradiction.
Defined.

Lemma keys_direct_filter : forall d : dict,
  NoDup (keys d) ->
  keys (direct_filter d) =
  filter (fun k => is_some (get (direct_filter d) k)) (keys d).
Proof.
  induction d as [|[k v] d IH]; intros Hnd; [reflexivity|].
  inversion Hnd as [|? ? Hk Hnd']; subst.
  assert (Hfil : ~ In k (keys (direct_filter d))).
  { intros Hin. apply Hk. unfold keys, direct_filter in *.
    apply in_map_iff in Hin as (kv & <- & Hin).
    apply filter_In in Hin as [Hin _]. now apply in_map. }
  unfold direct_filter in *. simpl.
  destruct (str_eqb v sentinel); simpl.
  - rewrite (get_absent _ k Hfil). simpl. now apply IH.
  - rewrite str_eqb_refl. simpl. f_equal.
    rewrite IH by assumption. apply filter_ext_in.
    intros k' Hin. rewrite str_eqb_neq; [reflexivity|].
    intros ->. contradiction.
Qed.

(** X3.  On every input text the validated map is the report without
    its sentinel entries: its keys are the field names that have a
    value, each once and in the declared order. *)
Theorem validated_map_is_filtered_report (text : str) :
  let result := validate_extracted_info (extract_information text) in
  result = direct_filter (extraction_report text) /\
  keys result = filter (fun k => is_some (get result k)) field_names /\
  NoDup (keys result).
Proof.
  cbv zeta. rewrite validate_extracted_is_direct_filter.
  pose proof (report_keys text) as Hk.
  assert (Hnd : NoDup (keys (extraction_report text)))
    by (rewrite Hk; apply field_names_nodup).
  split; [reflexivity|]. split.
  - rewrite keys_direct_filter by assumption. now rewrite Hk.
  - now apply keys_filter_nodup.
Qed.

(** X4.  Every field name has a value in the report of every text,
    and the value has no newline in it and no white space at either
    end. *)
Theorem report_fields_present_and_clean (text key : str) :
  In key field_names ->
  exists v, get (extraction_report text) key = Some v /\ clean v.
Proof.
  intros Hin. rewrite <- patterns_keys in Hin.
  apply in_map_iff in Hin as ([k pat] & <- & Hin). simpl.
  rewrite (report_get text k pat Hin).
  destruct (search pat text) as [cs|] eqn:Hs.
  - exists (selected pat cs). split; [reflexivity|].
    now apply (selected_clean text k pat cs).
  - exists sentinel. split; [reflexivity|].
    split; [vm_compute; intuition discriminate|reflexivity].
Qed.

Lemma report_fields_present_and_clean_witness :
  exists v, get (extraction_report example_text) (L "quantity") = Some v /\ clean v.
Proof.
  apply report_fields_present_and_clean.
  unfold field_names. simpl. tauto.
Defined.

(* ----------------------------------------------------------------- *)
(** ** What single fields can hold *)

Lemma search_none_everywhere (r : regex) : forall s i,
  search r s = None -> match_here r (skipn i s) = None.
Proof.
  induction s as [|c s IH]; intros i; simpl.
  - destruct (match_here r []) eqn:E; [discriminate|].
    intros _. now destruct i.
  - destruct (match_here r (c :: s)) eqn:E; [discriminate|].
    intros H. destruct i as [|i]; [exact E|]. simpl. now apply IH.
Qed.

(** X5.  A validated map that has a due date has an invoice date too:
    wherever the due-date pattern is found, the invoice-date pattern
    is found on the word [Date] of the label. *)
Theorem due_date_never_without_invoice_date (text v : str) :
  get (validate_extracted_info (extract_information text)) (L "due_date")
    = Some v ->
  exists v',
    get (validate_extracted_info (extract_information text)) (L "invoice_date")
      = Some v'.
Proof.
  assert (Hdue_in : In (L "due_date", due_date_re) patterns)
    by (unfold patterns; simpl; tauto).
  assert (Hinv_in : In (L "invoice_date", invoice_date_re) patterns)
    by (unfold patterns; simpl; tauto).
  intros Hv.
  destruct (search due_date_re text) as [cs|] eqn:Hdue.
  - destruct (search invoice_date_re text) as [cs'|] eqn:Hinv.
    + exists (selected invoice_date_re cs').
      now apply (validated_found text _ invoice_date_re cs').
    + exfalso.
      apply search_match_here in Hdue as [i Hdue].
      apply (due_date_implies_invoice_date (skipn i text)).
      * rewrite Hdue. discriminate.
      * rewrite skipn_skipn. now apply search_none_everywhere.
  - rewrite (validated_not_found text _ due_date_re Hdue_in Hdue) in Hv.
    discriminate.
Qed.

Lemma due_date_never_without_invoice_date_witness :
  exists v',
    get (validate_extracted_info (extract_information example_text))
        (L "invoice_date") = Some v'.
Proof.
  apply (due_date_never_without_invoice_date example_text (L "01/02/2024")).
  vm_compute. reflexivity.
Defined.









(* ----------------------------------------------------------------- *)
(** ** The text that [extract_information] returns *)

Lemma render_lines_labelled : forall d : dict,
  map render_line d =
  map (fun lv => fst lv ++ L ": " ++ snd lv)
    (combine (map (fun k => title (replace "_" " " k)) (keys d)) (map snd d)).
Proof.
  induction d as [|[k v] d IH]; [reflexivity|].
  simpl. rewrite IH. reflexivity.
Qed.

(** X8.  For every input the returned text has exactly ten lines: the
    ten labels in the declared order, each followed by a colon, a
    blank and the value of its field in the report. *)
Theorem extract_information_is_ten_labelled_lines (text : str) :
  split nl (extract_information text) =
  map (fun lv => fst lv ++ L ": " ++ snd lv)
    (combine labels (map snd (extraction_report text))) /\
  List.length (split nl (extract_information text)) = 10.
Proof.
  assert (Hlines : split nl (extract_information text) =
                   map render_line (extraction_report text)).
  { unfold extract_information, render. apply split_join.
    - pose proof (report_keys text) as Hk.
      destruct (extraction_report text); [discriminate Hk|discriminate].
    - apply Forall_forall. intros l Hin.
      apply in_map_iff in Hin as ([k v] & <- & Hin).
      apply rendered_line_no_nl.
      + pose proof field_names_roundtrip as H. rewrite forallb_forall in H.
        apply H. rewrite <- (report_keys text). unfold keys.
        change k with (fst (k, v)). now apply in_map.
      + pose proof (report_values_clean text) as Hc.
        rewrite Forall_forall in Hc. exact (proj1 (Hc _ Hin)). }
  rewrite Hlines. split.
  - rewrite render_lines_labelled, report_keys. reflexivity.
  - rewrite length_map. rewrite <- (length_map fst).
    change (map fst (extraction_report text)) with (keys (extraction_report text)).
    now rewrite report_keys.
Qed.

(* ----------------------------------------------------------------- *)
(** ** The validator on any text *)

Lemma split_not_nil (sep : ascii) (s : str) : split sep s <> [].
Proof.
  induction s as [|c s IH]; simpl; [discriminate|].
  destruct (Ascii.eqb c sep); [discriminate|].
  destruct (split sep s); [contradiction|discriminate].
Qed.

Lemma split_app (sep : ascii) (a b : str) :
  split sep (a ++ sep :: b) = split sep a ++ split sep b.
Proof.
  induction a as [|c a IH]; simpl.
  - now rewrite Ascii.eqb_refl.
  - destruct (Ascii.eqb c sep); [now rewrite IH|].
    rewrite IH. pose proof (split_not_nil sep a) as Hne.
    destruct (split sep a); [contradiction|reflexivity].
Qed.

Lemma split_pieces (sep : ascii) : forall (s piece : str),
  In piece (split sep s) -> ~ In sep piece.
Proof.
  induction s as [|c s IH]; simpl; intros piece.
  - intros [<-|[]]. tauto.
  - destruct (Ascii.eqb_spec c sep) as [->|Hne].
    + intros [<-|Hin]; [tauto|now apply IH].
    + pose proof (split_not_nil sep s) as Hnil.
      destruct (split sep s) as [|p rest]; [contradiction|].
      intros [<-|Hin].
      * intros [Heq|Hin]; [congruence|]. apply (IH p); [now left|assumption].
      * apply IH. now right.
Qed.

Lemma split_once_some (sep : ascii) : forall (s a b : str),
  split_once sep s = Some (a, b) -> s = a ++ sep :: b /\ ~ In sep a.
Proof.
  induction s as [|c s IH]; simpl; intros a b; [discriminate|].
  destruct (Ascii.eqb_spec c sep) as [->|Hne].
  - intros [= <- <-]. split; [reflexivity|tauto].
  - destruct (split_once sep s) as [[a' b']|]; [|discriminate].
    intros [= <- <-]. destruct (IH a' b' eq_refl) as [-> Hn].
    split; [reflexivity|]. intros [Heq|Hin]; [congruence|tauto].
Qed.

Lemma lstrip_head (s : str) :
  lstrip s = [] \/ exists x a, lstrip s = x :: a /\ solid x = true.
Proof.
  induction s as [|c s IH]; simpl; [now left|].
  destruct (isspace c) eqn:Hc; [exact IH|].
  right. exists c, s. split; [reflexivity|]. unfold solid. now rewrite Hc.
Qed.

Lemma lstrip_suffix (s : str) : exists p, s = p ++ lstrip s.
Proof.
  induction s as [|c s [p IH]]; simpl; [now exists []|].
  destruct (isspace c); [|now exists []].
  exists (c :: p). simpl. now f_equal.
Qed.

Lemma edges_strip (x y : ascii) (a b : str) :
  x :: a = b ++ [y] -> solid x = true -> solid y = true ->
  strip (x :: a) = x :: a.
Proof.
  intros Heq Hx Hy.
  unfold strip, rstrip. rewrite lstrip_solid by assumption.
  rewrite Heq, rev_app_distr. simpl rev at 2. simpl app.
  rewrite lstrip_solid by assumption.
  change (y :: rev b) with ([y] ++ rev b).
  now rewrite rev_app_distr, rev_involutive.
Qed.

(** Stripping twice is stripping once. *)
Lemma strip_strip (v : str) : strip (strip v) = strip v.
Proof.
  assert (Hw : strip v = rev (lstrip (rev (lstrip v)))) by reflexivity.
  rewrite Hw.
  destruct (lstrip_head (rev (lstrip v))) as [Hu|(y & u & Hu & Hy)];
    rewrite Hu; [reflexivity|].
  destruct (lstrip_suffix (rev (lstrip v))) as [p Hp]. rewrite Hu in Hp.
  assert (Ht : lstrip v = rev (y :: u) ++ rev p).
  { rewrite <- rev_app_distr, <- Hp. now rewrite rev_involutive. }
  destruct (lstrip_head v) as [Hnil|(x & a & Hx & Hsolid)].
  - rewrite Hnil in Ht. simpl in Ht.
    destruct (rev u); discriminate Ht.
  - rewrite Hx in Ht.
    destruct (rev (y :: u)) as [|x' a'] eqn:Hrev.
    + simpl in Hrev. destruct (rev u); discriminate Hrev.
    + simpl in Ht. injection Ht as <- _.
      apply (edges_strip x y a' (rev u)); [|assumption|assumption].
      simpl in Hrev. now rewrite Hrev.
Qed.

Lemma lower_char_keeps (q : ascii) :
  (forall c, lower_char c = q -> c = q) ->
  forall s, In q (lower s) -> In q s.
Proof.
  intros Hq s Hin. unfold lower in Hin.
  apply in_map_iff in Hin as (c & Hc & Hin). now rewrite <- (Hq c Hc).
Qed.

Lemma normalize_key_shape (key : str) :
  ~ In ":"%char key -> ~ In nl key ->
  ~ In " "%char (normalize_key key) /\ ~ In ":"%char (normalize_key key) /\
  ~ In nl (normalize_key key).
Proof.
  intros Hc Hn. unfold normalize_key, replace.
  repeat split; intros Hin; apply in_map_iff in Hin as (c & Hc' & Hin).
  - revert Hc'. destruct (Ascii.eqb_spec c " "%char) as [Heq|Hne];
      [discriminate|]. intros Hc'. contradiction.
  - revert Hc'. destruct (Ascii.eqb c " "%char); [discriminate|].
    intros Hc'. subst c.
    apply Hc. apply strip_sub. apply lower_char_keeps; [|assumption].
    intros c. destruct c as [[] [] [] [] [] [] [] []]; vm_compute;
      intros H; first [reflexivity | discriminate H].
  - revert Hc'. destruct (Ascii.eqb c " "%char); [discriminate|].
    intros Hc'. subst c.
    apply Hn. apply strip_sub. apply lower_char_keeps; [|assumption].
    intros c. destruct c as [[] [] [] [] [] [] [] []]; vm_compute;
      intros H; first [reflexivity | discriminate H].
Qed.

Lemma set_entries (P : str * str -> Prop) : forall (d : dict) (k v : str),
  Forall P d -> P (k, v) -> Forall P (set d k v).
Proof.
  induction d as [|[k0 v0] d IH]; intros k v Hall Hkv; simpl.
  - now constructor.
  - inversion Hall; subst.
    destruct (str_eqb_spec k0 k) as [->|]; constructor; auto.
Qed.

Lemma set_keys_nodup (d : dict) (k v : str) :
  NoDup (keys d) -> NoDup (keys (set d k v)).
Proof.
  intros Hnd.
  destruct (in_dec (list_eq_dec ascii_dec) k (keys d)) as [Hin|Hout].
  - now rewrite keys_set_present.
  - rewrite set_absent by assumption. unfold keys in *.
    rewrite map_app. simpl. apply NoDup_app; [assumption|repeat constructor; tauto|].
    intros x Hx [<-|[]]. contradiction.
Qed.

Lemma validate_line_keeps_shape (d : dict) (line : str) :
  ~ In nl line ->
  NoDup (keys d) /\ Forall valid_entry d ->
  NoDup (keys (validate_line d line)) /\ Forall valid_entry (validate_line d line).
Proof.
  intros Hnl [Hnd Hall]. unfold validate_line.
  destruct (split_once ":" line) as [[key value]|] eqn:Hs; [|now split].
  apply split_once_some in Hs as [-> Hcolon].
  destruct (str_eqb_spec (strip value) sentinel) as [|Hns]; [now split|].
  assert (Hk : ~ In nl key) by (intros H; apply Hnl, in_or_app; now left).
  assert (Hv : ~ In nl value)
    by (intros H; apply Hnl, in_or_app; right; now right).
  split; [now apply set_keys_nodup|].
  apply set_entries; [assumption|].
  destruct (normalize_key_shape key Hcolon Hk) as (H1 & H2 & H3).
  repeat split; simpl; try assumption.
  - intros Hin. apply Hv. now apply strip_sub.
  - apply strip_strip.
Qed.

(** X9.  Whatever text it is given, the validator returns a map whose
    keys are distinct and have no blank, no colon and no newline, and
    whose values are never the sentinel, have no newline and carry no
    white space at either end. *)
Theorem validated_entries_are_well_formed (text : str) :
  NoDup (keys (validate_extracted_info text)) /\
  Forall valid_entry (validate_extracted_info text).
Proof.
  unfold validate_extracted_info.
  assert (H : forall lines d,
            Forall (fun l => ~ In nl l) lines ->
            NoDup (keys d) /\ Forall valid_entry d ->
            NoDup (keys (fold_left validate_line lines d)) /\
            Forall valid_entry (fold_left validate_line lines d)).
  { induction lines as [|l lines IH]; intros d Hl Hd; [exact Hd|].
    inversion Hl; subst. simpl. apply IH; [assumption|].
    now apply validate_line_keeps_shape. }
  apply H.
  - apply Forall_forall. intros l Hin. now apply (split_pieces nl text).
  - split; constructor.
Qed.

(** X10.  Validation goes through the text line by line and from left
    to right: the result for two texts joined by a newline is the
    result for the first text, carried on over the lines of the
    second. *)
Theorem validation_composes_over_newlines (a b : str) :
  validate_extracted_info (a ++ nl :: b) =
  fold_left validate_line (split nl b) (validate_extracted_info a).
Proof.
  unfold validate_extracted_info. now rewrite split_app, fold_left_app.
Qed.

Lemma validate_line_keyed (d : dict) (key rest : str) :
  ~ In ":"%char key ->
  validate_line d (key ++ ":"%char :: rest) =
  if str_eqb (strip rest) sentinel then d
  else set d (normalize_key key) (strip rest).
Proof.
  intros Hc. unfold validate_line. now rewrite split_once_first.
Qed.

(** X11.  A further line [key:rest].  When its stripped value is the
    sentinel, the result is the one without the line: an earlier value
    of the key stays.  Otherwise the key now has the stripped value,
    the other keys have the values they had, and a key that was
    present keeps its place among the keys. *)
Theorem later_line_replaces_unless_sentinel (text key rest : str) :
  ~ In ":"%char key -> ~ In nl key -> ~ In nl rest ->
  let before := validate_extracted_info text in
  let after := validate_extracted_info (text ++ nl :: key ++ ":"%char :: rest) in
  (strip rest = sentinel -> after = before) /\
  (strip rest <> sentinel ->
     get after (normalize_key key) = Some (strip rest) /\
     (forall k, k <> normalize_key key -> get after k = get before k) /\
     (In (normalize_key key) (keys before) -> keys after = keys before)).
Proof.
  intros Hc Hk Hr. cbv zeta.
  unfold validate_extracted_info. rewrite split_app, fold_left_app.
  rewrite split_no_sep
    by (intros Hin; apply in_app_or in Hin as [Hin|[Hin|Hin]];
        [tauto|discriminate|tauto]).
  simpl fold_left. rewrite validate_line_keyed by assumption.
  split.
  - intros ->. now rewrite str_eqb_refl.
  - intros Hns. rewrite (str_eqb_neq _ _ Hns).
    split; [apply get_set_same|]. split.
    + intros k Hne. apply get_set_other. congruence.
    + apply keys_set_present.
Qed.

Lemma later_line_replaces_unless_sentinel_witness :
  validate_extracted_info (L "Rate: 5" ++ nl :: L "Rate" ++ ":"%char :: L " Not found")
    = validate_extracted_info (L "Rate: 5").
Proof.
  refine (proj1 (later_line_replaces_unless_sentinel
                   (L "Rate: 5") (L "Rate") (L " Not found") _ _ _) _).
  - vm_compute. intuition discriminate.
  - vm_compute. intuition discriminate.
  - vm_compute. intuition discriminate.
  - reflexivity.
Defined.

(* ----------------------------------------------------------------- *)
(** ** The text display, read again *)

Lemma direct_filter_twice (d : dict) :
  direct_filter (direct_filter d) = direct_filter d.
Proof.
  unfold direct_filter. induction d as [|kv d IH]; simpl; [reflexivity|].
  destruct (negb (str_eqb (snd kv) sentinel)) eqn:E; simpl; [|exact IH].
  now rewrite E, IH.
Qed.

Lemma direct_filter_forall (P : str * str -> Prop) (d : dict) :
  Forall P d -> Forall P (direct_filter d).
Proof.
  intros Hall. apply Forall_forall. intros kv Hin.
  apply filter_In in Hin as [Hin _]. rewrite Forall_forall in Hall. auto.
Qed.

(** X12.  The Text display of the map that a run delivers validates
    back to that map: title-casing the keys loses nothing on the
    field names, and the values are clean. *)
Theorem text_display_validates_back (text : str) :
  let result := validate_extracted_info (extract_information text) in
  validate_extracted_info (display_results Text result) = result.
Proof.
  cbv zeta. rewrite validate_extracted_is_direct_filter.
  set (report := extraction_report text).
  assert (Hkeys : keys report = field_names) by apply report_keys.
  assert (Hrt : Forall (fun kv => key_roundtrips (fst kv) = true)
                  (direct_filter report)).
  { apply direct_filter_forall. apply Forall_forall. intros kv Hin.
    pose proof field_names_roundtrip as H. rewrite forallb_forall in H.
    apply H. rewrite <- Hkeys. unfold keys. now apply in_map. }
  assert (Hclean : Forall (fun kv => clean (snd kv)) (direct_filter report))
    by (apply direct_filter_forall, report_values_clean).
  unfold display_results, render. rewrite validate_lines.
  - rewrite fold_validate_rendered.
    + simpl. rewrite stripped_clean by assumption. apply direct_filter_twice.
    + assumption.
    + simpl. apply keys_filter_nodup. rewrite Hkeys. apply field_names_nodup.
  - apply Forall_forall. intros l Hin.
    apply in_map_iff in Hin as ([k v] & <- & Hin).
    rewrite Forall_forall in Hrt, Hclean.
    apply rendered_line_no_nl; [exact (Hrt _ Hin)|exact (proj1 (Hclean _ Hin))].
Qed.

(* ================================================================= *)
(** ** Preprocessing: the other kinds of file *)


(** X13.  A file that is neither a PDF nor an image by its extension
    is read as text: preprocessing sends nothing to the OCR service
    and ends as the read ends, with the contents of the file as they
    are or with the error of the read. *)
Theorem plain_file_is_read_without_ocr (w : world) (path : str) :
  is_pdf path = false -> is_image path = false ->
  preprocess_document w path = ([], read_text w path).
Proof.
  unfold is_pdf, is_image, preprocess_document, lift.
  intros -> ->. reflexivity.
Qed.

Lemma plain_file_is_read_without_ocr_witness :
  preprocess_document one_page_world (L "bill.txt") = ([], Ok (L "%PDF")).
Proof.
  apply (plain_file_is_read_without_ocr one_page_world (L "bill.txt"));
    reflexivity.
Defined.

(** X14.  An image file (png, jpg or jpeg, in any letter case) that
    can be read goes to the OCR service once, as a text detection on
    its bytes; the text is the description of the first annotation,
    the empty text when the service returns no annotation, and the
    error of the service when it fails. *)
Theorem image_goes_to_text_detection (w : world) (path content : str) :
  is_pdf path = false -> is_image path = true ->
  read_bytes w path = Ok content ->
  preprocess_document w path =
  ([TextDetection content],
   match text_detection w content with
   | Ok (description :: _) => Ok description
   | Ok [] => Ok []
   | Raise msg => Raise msg
   end).
Proof.
  unfold is_pdf, is_image, preprocess_document. intros -> -> Hread.
  unfold preprocess_image, bind, lift, emit, ret. rewrite Hread. simpl.
  destruct (text_detection w content) as [[|d ds]|msg]; reflexivity.
Qed.

Lemma image_goes_to_text_detection_witness :
  preprocess_document scanned_world (L "scan.JPEG") =
  ([TextDetection (L "%PDF scan")], Ok []).
Proof.
  apply (image_goes_to_text_detection scanned_world (L "scan.JPEG")
           (L "%PDF scan")); reflexivity.
Defined.

(** X15.  A PDF or an image that cannot be opened: preprocessing
    raises the error of the read and sends nothing to the OCR
    service. *)
Theorem unreadable_file_raises_without_ocr (w : world) (path msg : str) :
  is_pdf path = true \/ is_image path = true ->
  read_bytes w path = Raise msg ->
  preprocess_document w path = ([], Raise msg).
Proof.
  unfold is_pdf, is_image, preprocess_document. intros Hkind Hread.
  destruct (endswith (L ".pdf") (lower path)) eqn:Hpdf.
  - unfold preprocess_pdf, bind, lift. now rewrite Hread.
  - destruct Hkind as [Hk|Hk]; [discriminate|]. rewrite Hk.
    unfold preprocess_image, bind, lift. now rewrite Hread.
Qed.

Lemma unreadable_file_raises_without_ocr_witness :
  preprocess_document missing_file_world (L "bill.pdf") =
  ([], Raise (L "No such file or directory")).
Proof.
  apply unreadable_file_raises_without_ocr; [left|]; reflexivity.
Defined.

Lemma add_pages_failure (w : world) : forall before texts p after text msg,
  Forall2 (fun q t => extract_text w q = Ok t) before texts ->
  extract_text w p = Raise msg ->
  add_pages w (before ++ p :: after) text = Raise msg.
Proof.
  induction before as [|q before IH]; intros texts p after text msg Hall Hp;
    inversion Hall as [|? t ? texts' Hq Hrest]; subst; simpl.
  - now rewrite Hp.
  - rewrite Hq. now apply (IH texts').
Qed.

(** X16.  The OCR fallback of a PDF is for blank text only.  When the
    file cannot be parsed, or when the text of one of its pages cannot
    be extracted, preprocessing raises that error and sends nothing to
    the OCR service, whatever the pages before gave. *)
Theorem broken_pdf_raises_without_ocr (w : world) (path content msg : str) :
  is_pdf path = true ->
  read_bytes w path = Ok content ->
  (pdf_pages w content = Raise msg \/
   exists before texts p after,
     pdf_pages w content = Ok (before ++ p :: after) /\
     Forall2 (fun q t => extract_text w q = Ok t) before texts /\
     extract_text w p = Raise msg) ->
  preprocess_document w path = ([], Raise msg).
Proof.
  unfold is_pdf, preprocess_document. intros -> Hread Hfail.
  unfold preprocess_pdf, bind, lift. rewrite Hread. simpl.
  destruct Hfail as [Hparse|(before & texts & p & after & Hpages & Hall & Hp)].
  - now rewrite Hparse.
  - rewrite Hpages. simpl.
    now rewrite (add_pages_failure w before texts p after [] msg Hall Hp).
Qed.

Import Gui.

Lemma broken_pdf_raises_without_ocr_witness :
  preprocess_document torn_world (L "bill.pdf") =
  ([], Raise (L "cannot decode page")).
Proof.
  apply (broken_pdf_raises_without_ocr torn_world (L "bill.pdf") (L "%PDF torn")).
  - reflexivity.
  - reflexivity.
  - right. exists [true], [L "Invoice Number: 7"], false, [].
    repeat split. repeat constructor.
Defined.

(** X17.  Whatever the file and whatever the file system, the PDF
    library and the OCR service answer, preprocessing one document
    sends at most one request to the OCR service. *)
Theorem preprocessing_calls_ocr_at_most_once (w : world) (path : str) :
  List.length (fst (preprocess_document w path)) <= 1.
Proof.
  unfold preprocess_document.
  destruct (endswith (L ".pdf") (lower path)).
  - unfold preprocess_pdf, ocr_pdf, bind, lift, emit, ret.
    destruct (read_bytes w path) as [content|msg]; simpl; [|lia].
    destruct (pdf_pages w content) as [pages|msg]; simpl; [|lia].
    destruct (add_pages w pages []) as [text|msg]; simpl; [|lia].
    destruct (strip text); simpl; lia.
  - destruct (endswith (L ".png") (lower path) || endswith (L ".jpg") (lower path)
              || endswith (L ".jpeg") (lower path)).
    + unfold preprocess_image, bind, lift, emit, ret.
      destruct (read_bytes w path) as [content|msg]; simpl; [|lia].
      destruct (text_detection w content); simpl; lia.
    + simpl. lia.
Qed.

(* ================================================================= *)
(** ** The worker on the program's own stages *)

Lemma run_after_text (w : world) (path text : str) (calls : list ocr_call) :
  preprocess_document w path = (calls, Ok text) ->
  run w path =
  (Signal (update_progress 10 (L "Preprocessing document...")) ::
   map Service calls ++
   [ Signal (update_progress 40 (L "Extracting information..."));
     Signal (update_progress 70 (L "Validating extracted information..."));
     Signal (update_progress 100 (L "Extraction complete!"));
     Signal (extraction_complete
               (validate_extracted_info (extract_information text))) ],
   Ok tt).
Proof.
  intros Hpre. unfold run, run_stages, try_except, bind, stage, emit, ret.
  rewrite Hpre. reflexivity.
Qed.

Lemma run_after_error (w : world) (path msg : str) (calls : list ocr_call) :
  preprocess_document w path = (calls, Raise msg) ->
  run w path =
  (Signal (update_progress 10 (L "Preprocessing document...")) ::
   map Service calls ++
   [ Signal (update_progress 100 (L "Error: " ++ msg)) ],
   Ok tt).
Proof.
  intros Hpre. unfold run, run_stages, try_except, bind, stage, emit, ret.
  rewrite Hpre. reflexivity.
Qed.

Lemma signals_run_after_text (w : world) (path text : str) (calls : list ocr_call) :
  preprocess_document w path = (calls, Ok text) ->
  signals (fst (run w path)) =
  [ update_progress 10 (L "Preprocessing document...");
    update_progress 40 (L "Extracting information...");
    update_progress 70 (L "Validating extracted information...");
    update_progress 100 (L "Extraction complete!");
    extraction_complete (validate_extracted_info (extract_information text)) ].
Proof.
  intros Hpre. rewrite (run_after_text w path text calls Hpre). simpl.
  now rewrite signals_app, signals_service.
Qed.

Lemma signals_run_after_error (w : world) (path msg : str) (calls : list ocr_call) :
  preprocess_document w path = (calls, Raise msg) ->
  signals (fst (run w path)) =
  [ update_progress 10 (L "Preprocessing document...");
    update_progress 100 (L "Error: " ++ msg) ].
Proof.
  intros Hpre. rewrite (run_after_error w path msg calls Hpre). simpl.
  now rewrite signals_app, signals_service.
Qed.

(** X18.  A run whose preprocessing returns a text.  The worker emits
    the progress updates 10, 40, 70 and 100 in this order, then one
    [extraction_complete]; what it carries is the report of the text
    without its sentinel entries.  The only requests to the OCR
    service are those of preprocessing, between the updates 10 and
    40, and the run ends without an exception. *)
Theorem successful_run_delivers_filtered_report
  (w : world) (path text : str) (calls : list ocr_call) :
  preprocess_document w path = (calls, Ok text) ->
  run w path =
  (Signal (update_progress 10 (L "Preprocessing document...")) ::
   map Service calls ++
   [ Signal (update_progress 40 (L "Extracting information..."));
     Signal (update_progress 70 (L "Validating extracted information..."));
     Signal (update_progress 100 (L "Extraction complete!"));
     Signal (extraction_complete (direct_filter (extraction_report text))) ],
   Ok tt).
Proof.
  intros Hpre. rewrite (run_after_text w path text calls Hpre).
  now rewrite validate_extracted_is_direct_filter.
Qed.

Lemma successful_run_delivers_filtered_report_witness :
  run example_world (L "bill.txt") =
  (Signal (update_progress 10 (L "Preprocessing document...")) ::
   map Service [] ++
   [ Signal (update_progress 40 (L "Extracting information..."));
     Signal (update_progress 70 (L "Validating extracted information..."));
     Signal (update_progress 100 (L "Extraction complete!"));
     Signal (extraction_complete (direct_filter (extraction_report example_text))) ],
   Ok tt).
Proof.
  apply (successful_run_delivers_filtered_report example_world (L "bill.txt")
           example_text []).
  reflexivity.
Defined.

(** X19.  Every run, in every world, ends without an exception, and
    its signals are one of two sequences: the update 10 followed by
    the update 100 with [Error: ] and a message, or the updates 10,
    40, 70 and 100 followed by one [extraction_complete].  A result is
    delivered at most once, and never together with an error. *)
Theorem run_has_two_outcomes (w : world) (path : str) :
  snd (run w path) = Ok tt /\
  ((exists msg,
      signals (fst (run w path)) =
      [ update_progress 10 (L "Preprocessing document...");
        update_progress 100 (L "Error: " ++ msg) ]) \/
   (exists info,
      signals (fst (run w path)) =
      [ update_progress 10 (L "Preprocessing document...");
        update_progress 40 (L "Extracting information...");
        update_progress 70 (L "Validating extracted information...");
        update_progress 100 (L "Extraction complete!");
        extraction_complete info ])).
Proof.
  destruct (preprocess_document w path) as [calls [text|msg]] eqn:Hpre.
  - rewrite (signals_run_after_text w path text calls Hpre).
    rewrite (run_after_text w path text calls Hpre).
    split; [reflexivity|]. right. eauto.
  - rewrite (signals_run_after_error w path msg calls Hpre).
    rewrite (run_after_error w path msg calls Hpre).
    split; [reflexivity|]. left. eauto.
Qed.

(* ================================================================= *)
(** ** The window *)

(** X20.  A click on the extract button before any file was selected
    starts no worker: the result box asks for a file, and nothing
    else in the window changes; the button stays as it was. *)
Theorem click_without_file_only_asks_for_one (w : world) (g : gui) :
  file_path g = None ->
  click_extract w g =
  {| file_label := file_label g;
     file_path := None;
     output_format := output_format g;
     progress_bar := progress_bar g;
     status_label := status_label g;
     result_text := L "Please select a file first.";
     extract_button_enabled := extract_button_enabled g |}.
Proof.
  intros Hnone. unfold click_extract, extract_info. now rewrite Hnone.
Qed.

Lemma click_without_file_only_asks_for_one_witness :
  click_extract example_world
    {| file_label := L "No file selected"; file_path := None;
       output_format := Text; progress_bar := 0; status_label := [];
       result_text := []; extract_button_enabled := true |} =
  {| file_label := L "No file selected"; file_path := None;
     output_format := Text; progress_bar := 0; status_label := [];
     result_text := L "Please select a file first.";
     extract_button_enabled := true |}.
Proof.
  apply (click_without_file_only_asks_for_one example_world
           {| file_label := L "No file selected"; file_path := None;
              output_format := Text; progress_bar := 0; status_label := [];
              result_text := []; extract_button_enabled := true |}).
  reflexivity.
Defined.

(** X21.  A click with a file whose preprocessing raises.  When the
    signals of the run have reached the window, the progress bar is
    at 100, the status line reads [Error: ] and the message, the
    result box holds what it held before, and the extract button is
    disabled: nothing in the program enables it again. *)
Theorem failed_run_leaves_button_disabled
  (w : world) (g : gui) (path msg : str) (calls : list ocr_call) :
  file_path g = Some path ->
  preprocess_document w path = (calls, Raise msg) ->
  click_extract w g =
  {| file_label := file_label g;
     file_path := Some path;
     output_format := output_format g;
     progress_bar := 100;
     status_label := L "Error: " ++ msg;
     result_text := result_text g;
     extract_button_enabled := false |}.
Proof.
  intros Hfile Hpre. unfold click_extract, extract_info. rewrite Hfile.
  rewrite (signals_run_after_error w path msg calls Hpre).
  simpl. unfold slot_update_progress. simpl. reflexivity.
Qed.

Lemma failed_run_leaves_button_disabled_witness :
  click_extract missing_file_world (ready_window (L "bill.pdf")) =
  {| file_label := L "Selected file: bill.pdf";
     file_path := Some (L "bill.pdf");
     output_format := CSV;
     progress_bar := 100;
     status_label := L "Error: No such file or directory";
     result_text := L "earlier result";
     extract_button_enabled := false |}.
Proof.
  apply (failed_run_leaves_button_disabled missing_file_world
           (ready_window (L "bill.pdf")) (L "bill.pdf")
           (L "No such file or directory") []); reflexivity.
Defined.

(** X22.  A click with a file whose preprocessing returns a text.
    When the signals of the run have reached the window, the progress
    bar is at 100, the status line reads [Extraction complete!], the
    result box shows the report of the text without its sentinel
    entries, in the format selected, and the extract button is
    enabled again. *)
Theorem successful_run_shows_result_and_enables_button
  (w : world) (g : gui) (path text : str) (calls : list ocr_call) :
  file_path g = Some path ->
  preprocess_document w path = (calls, Ok text) ->
  click_extract w g =
  {| file_label := file_label g;
     file_path := Some path;
     output_format := output_format g;
     progress_bar := 100;
     status_label := L "Extraction complete!";
     result_text :=
       display_results (output_format g)
         (direct_filter (extraction_report text));
     extract_button_enabled := true |}.
Proof.
  intros Hfile Hpre. unfold click_extract, extract_info. rewrite Hfile.
  rewrite (signals_run_after_text w path text calls Hpre).
  rewrite validate_extracted_is_direct_filter.
  simpl. unfold slot_display_results, slot_update_progress. simpl.
  reflexivity.
Qed.

Lemma successful_run_shows_result_and_enables_button_witness :
  click_extract example_world (ready_window (L "bill.txt")) =
  {| file_label := L "Selected file: bill.txt";
     file_path := Some (L "bill.txt");
     output_format := CSV;
     progress_bar := 100;
     status_label := L "Extraction complete!";
     result_text :=
       display_results CSV (direct_filter (extraction_report example_text));
     extract_button_enabled := true |}.
Proof.
  apply (successful_run_shows_result_and_enables_button example_world
           (ready_window (L "bill.txt")) (L "bill.txt") example_text []);
    reflexivity.
Defined.

(* ================================================================= *)
(** ** The JSON display *)

(** X23.  The JSON display loses nothing: two maps with the same JSON
    text are the same map, whatever characters their keys and values
    hold. *)
Theorem json_display_is_injective (d1 d2 : dict) :
  display_results JSON d1 = display_results JSON d2 -> d1 = d2.
Proof.
  unfold display_results. intros Heq.
  assert (H : read_json (json_dumps d1) = read_json (json_dumps d2))
    by now rewrite Heq.
  rewrite !read_json_dumps in H. now injection H.
Qed.

Lemma json_display_is_injective_witness :
  [(L "rate", L "7,5")] = [(L "rate", L "7,5")].
Proof.
  apply json_display_is_injective. reflexivity.
Defined.

Lemma json_escape_chars (c : ascii) :
  Forall (fun x => json_char x = true) (json_escape c).
Proof.
  destruct c as [[] [] [] [] [] [] [] []]; repeat constructor.
Qed.

Lemma json_string_chars (s : str) :
  Forall (fun x => json_char x = true) (json_string s).
Proof.
  unfold json_string. constructor; [reflexivity|].
  apply Forall_app. split; [|repeat constructor].
  induction s as [|c s IH]; simpl; [constructor|].
  apply Forall_app. split; [apply json_escape_chars|exact IH].
Qed.

Lemma join_chars (P : ascii -> Prop) (sep : str) : forall pieces,
  Forall P sep -> Forall (Forall P) pieces -> Forall P (join sep pieces).
Proof.
  induction pieces as [|p rest IH]; intros Hsep Hall; [constructor|].
  inversion Hall; subst. destruct rest as [|q rest]; [assumption|].
  change (join sep (p :: q :: rest)) with (p ++ sep ++ join sep (q :: rest)).
  repeat (apply Forall_app; split); auto.
Qed.

(** X24.  The JSON display is plain ASCII: every character of the
    text is a printable ASCII character or the newline of the
    indentation, whatever characters the keys and values hold. *)
Theorem json_display_is_ascii (d : dict) :
  Forall (fun c => json_char c = true) (display_results JSON d).
Proof.
  unfold display_results, json_dumps.
  destruct d as [|kv d]; [repeat constructor|].
  change (L "{" ++ [nl] ++ L "  " ++
          join ("," :: nl :: L "  ") (map json_member (kv :: d)) ++ [nl] ++ L "}")
    with ("{"%char :: nl :: " "%char :: " "%char ::
          (join ("," :: nl :: L "  ") (map json_member (kv :: d)) ++ [nl; "}"%char])).
  repeat (constructor; [reflexivity|]).
  apply Forall_app. split; [|repeat constructor].
  apply join_chars; [repeat constructor|].
  apply Forall_forall. intros m Hin.
  apply in_map_iff in Hin as ([k v] & <- & _).
  unfold json_member. simpl fst. simpl snd.
  apply Forall_app. split; [apply json_string_chars|].
  apply Forall_app. split; [repeat constructor|apply json_string_chars].
Qed.
